(** * validator.py: the AISLER parts crawler and the fuzzy part matcher

    A shallow embedding of [src/validator.py].  Python values that come out
    of [json.loads] are the type [json]; every subscript, comparison and
    iteration of the source is written with the exception it can raise.
    The process environment (status pickle, clock, Part table, signal flag,
    request trace) is the record [world], threaded explicitly. *)

From Stdlib Require Import ZArith List String Ascii Bool Lia Arith.
Import ListNotations.
Local Open Scope Z_scope.
Local Open Scope string_scope.
Local Open Scope list_scope.
Set Warnings "-register-all".

(** ** Python values read from JSON *)

(** What [json.loads] returns.  Numbers are the integers (a literal with a
    fraction or an exponent is outside the embedding); an object is its
    dict in insertion order, the parser having kept one entry per key. *)
Inductive json : Type :=
| JNull
| JBool (b : bool)
| JNum (z : Z)
| JStr (s : string)
| JArr (l : list json)
| JObj (d : list (string * json)).

Definition dict : Type := list (string * json).

(** The exceptions the embedded code can meet. *)
Inductive exn : Type :=
| KeyError
| TypeError
| AttributeError
| JSONDecodeError
| RequestException
| OSError
| IntegrityError
| StatementError.

(** Result of running a piece of the program: a value, [exit(code)]
    (SystemExit, which [except Exception] does not catch), or an exception. *)
Inductive outcome (A : Type) : Type :=
| Done (a : A)
| Exit (code : Z)
| Raise (e : exn).
Arguments Done {A} a.
Arguments Exit {A} code.
Arguments Raise {A} e.

Definition bind {A B} (m : outcome A) (k : A -> outcome B) : outcome B :=
  match m with
  | Done a => k a
  | Exit c => Exit c
  | Raise e => Raise e
  end.

Notation "x <- m ;; k" := (bind m (fun x => k))
  (at level 61, m at next level, right associativity).

Definition aborted {A} (o : outcome A) : bool :=
  match o with Done _ => false | _ => true end.

(** [d[k]] on a dict, and [k in d.keys()]. *)
Fixpoint dict_get (k : string) (d : dict) : option json :=
  match d with
  | [] => None
  | (k', v) :: d' => if String.eqb k k' then Some v else dict_get k d'
  end.

Definition dict_has (k : string) (d : dict) : bool :=
  match dict_get k d with Some _ => true | None => false end.

(** [d[k] = v]: overwrite in place, or append a new entry. *)
Fixpoint dict_set (k : string) (v : json) (d : dict) : dict :=
  match d with
  | [] => [(k, v)]
  | (k', v') :: d' =>
      if String.eqb k k' then (k', v) :: d' else (k', v') :: dict_set k v d'
  end.

(** [d.update(e)] for a dict [e]: [for k in e: d[k] = e[k]]. *)
Definition dict_update (d e : dict) : dict :=
  fold_left (fun acc k =>
               match dict_get k e with
               | Some v => dict_set k v acc
               | None => acc
               end) (map fst e) d.

(** [x[k]] with a string key on any value: only a dict is subscriptable
    by a string. *)
Definition subscript (x : json) (k : string) : outcome json :=
  match x with
  | JObj d => match dict_get k d with Some v => Done v | None => Raise KeyError end
  | _ => Raise TypeError
  end.

(** [x.keys()] then [k in ...]: anything but a dict has no [keys]. *)
Definition has_key (x : json) (k : string) : outcome bool :=
  match x with
  | JObj d => Done (dict_has k d)
  | _ => Raise AttributeError
  end.

(** Python's [int] view of a value: [bool] is a subclass of [int]. *)
Definition as_int (x : json) : option Z :=
  match x with
  | JNum z => Some z
  | JBool true => Some 1
  | JBool false => Some 0
  | _ => None
  end.

(** [a == b]. *)
Fixpoint py_eq (a b : json) : bool :=
  match a, b with
  | JNull, JNull => true
  | JBool x, JBool y => Bool.eqb x y
  | JBool x, JNum z => Z.eqb (if x then 1 else 0) z
  | JNum z, JBool y => Z.eqb z (if y then 1 else 0)
  | JNum x, JNum y => Z.eqb x y
  | JStr s, JStr t => String.eqb s t
  | JArr l, JArr m =>
      (fix all2 (l m : list json) : bool :=
         match l, m with
         | [], [] => true
         | x :: l', y :: m' => py_eq x y && all2 l' m'
         | _, _ => false
         end) l m
  | JObj d, JObj e =>
      (Nat.eqb (List.length d) (List.length e)) &&
      (fix sub (d : list (string * json)) : bool :=
         match d with
         | [] => true
         | (k, v) :: d' =>
             match dict_get k e with
             | Some v' => py_eq v v' && sub d'
             | None => false
             end
         end) d
  | _, _ => false
  end.

(** [a >= b]; [None] is the TypeError of an unordered pair of types.
    Strings are ordered by code point, which is the order of their UTF-8
    octets; lists lexicographically. *)
Fixpoint py_ge (a b : json) : option bool :=
  match a, b with
  | JArr l, JArr m =>
      (fix lex (l m : list json) : option bool :=
         match l, m with
         | [], [] => Some true
         | [], _ :: _ => Some false
         | _ :: _, [] => Some true
         | x :: l', y :: m' => if py_eq x y then lex l' m' else py_ge x y
         end) l m
  | JStr s, JStr t => Some (String.leb t s)
  | _, _ =>
      match as_int a, as_int b with
      | Some x, Some y => Some (Z.geb x y)
      | _, _ => None
      end
  end.

Definition ge (a b : json) : outcome bool :=
  match py_ge a b with Some r => Done r | None => Raise TypeError end.

(** [len(x)]. *)
Definition py_len (x : json) : outcome nat :=
  match x with
  | JStr s => Done (String.length s)
  | JArr l => Done (List.length l)
  | JObj d => Done (List.length d)
  | _ => Raise TypeError
  end.

(** ** The Part table *)

(** Modelled from the spec: [models/part.py] declares the Part table and is
    not among the sources.  The spec's CatalogRecord gives it five string
    columns; [id] is the primary key read by [validate_parts]
    ([best_match.id]), numbered by the store on insertion. *)
Record Part : Type := mkPart {
  id : nat;
  aisler_id : string;
  mpn : string;
  manufacturer : string;
  description : string;
  datasheet : string
}.

(** ** Fuzzy matcher *)

(** [jellyfish.levenshtein_distance]: the edit distance with unit cost for
    an insertion, a deletion and a substitution, on the characters of the
    two strings. *)
Fixpoint lev (s t : list ascii) : nat :=
  match s with
  | [] => List.length t
  | a :: s' =>
      (fix lev_row (t : list ascii) : nat :=
         match t with
         | [] => List.length s
         | b :: t' =>
             Nat.min (S (Nat.min (lev s' t) (lev_row t')))
                     ((if Ascii.eqb a b then 0 else 1) + lev s' t')%nat
         end) t
  end.

Definition levenshtein_distance (s t : string) : nat :=
  lev (list_ascii_of_string s) (list_ascii_of_string t).

(** The dict [best] of [match_parts]: [{"part": ..., "dist": ...}]. *)
Record best_t : Type := mkBest {
  best_part : option Part;
  best_dist : option nat
}.

Section Matcher.
(** The score is a parameter of the selection loop: nothing in
    [match_parts] depends on which distance is used. *)
Variable dist : string -> string -> nat.

(** One turn of the [for] loop (lines 328-334). *)
Definition match_step (value : string) (best : best_t) (related_part : Part)
  : best_t :=
  let d := dist value (mpn related_part) in
  match best_dist best with
  | None => mkBest (Some related_part) (Some d)
  | Some bd =>
      if Nat.ltb d bd then mkBest (Some related_part) (Some d) else best
  end.

Definition match_loop (value : string) (best : best_t)
           (related_parts : list Part) : best_t :=
  fold_left (match_step value) related_parts best.

(** [match_parts(query_item, related_parts)], [value] being
    [query_item.Item.value]. *)
Definition match_parts_with (value : string) (related_parts : list Part)
  : option Part :=
  best_part (match_loop value (mkBest None None) related_parts).
End Matcher.

Definition match_parts : string -> list Part -> option Part :=
  match_parts_with levenshtein_distance.

(** ** Record repository: [parse_and_insert_response_parts] *)

(** Modelled from the spec: the column types are declared in
    [models/part.py], which is not among the sources.  The columns hold
    strings (spec, CatalogRecord); a value of another type cannot be bound
    to one, which the ORM reports when the statement is run. *)
Definition as_column (x : json) : option string :=
  match x with
  | JStr s => Some s
  | _ => None
  end.

(** The local dict [aisler_part] (lines 116-123). *)
Record aisler_part_t : Type := mkAislerPart {
  ap_aisler_id : json;
  ap_mpn : json;
  ap_manufacturer : json;
  ap_datasheet : json;
  ap_description : json
}.

(** Lines 119-123, in the order the subscripts are evaluated. *)
Definition read_payload (part : json) : outcome aisler_part_t :=
  i <- subscript part "id";;
  a1 <- subscript part "attributes";;
  m <- subscript a1 "mpn";;
  a2 <- subscript part "attributes";;
  f <- subscript a2 "manufacturer";;
  a3 <- subscript part "attributes";;
  s <- subscript a3 "datasheet";;
  a4 <- subscript part "attributes";;
  d <- subscript a4 "description";;
  Done (mkAislerPart i m f s d).

(** [session.query(Part).filter(Part.aisler_id == key).first()]. *)
Definition query_first (key : string) (table : list Part) : option Part :=
  find (fun row => String.eqb (aisler_id row) key) table.

(** The row [session.add(db_part); session.commit()] writes: the transient
    [db_part] with the next primary key. *)
Definition new_row (table : list Part) (key m f d s : string) : Part :=
  mkPart (S (List.length table)) key m f d s.

(** Modelled from the spec: [aisler_id] is the table's unique key (spec,
    CatalogRecord), so a commit that would store a second row with the
    same key raises IntegrityError. *)
Definition add_and_commit (row : Part) (table : list Part)
  : outcome (list Part) :=
  if existsb (fun r => String.eqb (aisler_id r) (aisler_id row)) table
  then Raise IntegrityError
  else Done (table ++ [row]).

(** The [try] block of lines 127-155 for one payload.  When a row with the
    same [aisler_id] exists, line 143 rebinds the local name [in_db] to the
    transient [db_part]; the session holds nothing new and the commit
    writes nothing. *)
Definition store_part (ap : aisler_part_t) (table : list Part)
  : outcome unit * list Part :=
  match as_column (ap_aisler_id ap) with
  | None => (Raise StatementError, table)
  | Some key =>
      match query_first key table with
      | Some in_db => (Done tt, table)
      | None =>
          match as_column (ap_mpn ap), as_column (ap_manufacturer ap),
                as_column (ap_description ap), as_column (ap_datasheet ap) with
          | Some m, Some f, Some d, Some s =>
              match add_and_commit (new_row table key m f d s) table with
              | Done table' => (Done tt, table')
              | Raise IntegrityError => (Done tt, table)
              | Raise e => (Raise e, table)
              | Exit c => (Exit c, table)
              end
          | _, _, _, _ => (Raise StatementError, table)
          end
      end
  end.

(** One turn of the [for] loop of line 115. *)
Definition insert_part (part : json) (table : list Part)
  : outcome unit * list Part :=
  match read_payload part with
  | Done ap => store_part ap table
  | Exit c => (Exit c, table)
  | Raise e => (Raise e, table)
  end.

(** [for part in parts]: what iterating the argument yields.  [None] is
    the Python [None] that [build_parts_db] passes when the page has no
    [data]; a string yields its characters (here: its octets), a dict its
    keys. *)
Definition iterate (parts : option json) : outcome (list json) :=
  match parts with
  | Some (JArr l) => Done l
  | Some (JStr s) =>
      Done (map (fun c => JStr (String c EmptyString)) (list_ascii_of_string s))
  | Some (JObj d) => Done (map (fun kv => JStr (fst kv)) d)
  | _ => Raise TypeError
  end.

Fixpoint insert_all (parts : list json) (table : list Part)
  : outcome unit * list Part :=
  match parts with
  | [] => (Done tt, table)
  | part :: rest =>
      match insert_part part table with
      | (Done _, table') => insert_all rest table'
      | (o, table') => (o, table')
      end
  end.

Definition parse_and_insert_response_parts (parts : option json)
           (table : list Part) : outcome unit * list Part :=
  match iterate parts with
  | Done l => insert_all l table
  | Exit c => (Exit c, table)
  | Raise e => (Raise e, table)
  end.

(** ** Checkpoint store: [save_status] and [fetch_status] *)

(** The dict pickled by [save_status]; [None] is Python's [None].  A
    [datetime] is its number of microseconds since the epoch. *)
Record status_dict : Type := mkStatus {
  sd_finished : option Z;
  sd_meta : option dict;
  sd_next_urls : option (list json)
}.

(** States of [validator_status.pickle]: no such path; a path that exists
    and that [open(..., 'rb')] refuses (no read permission, a directory);
    a file from which [pickle.load] or one of the three subscripts of
    line 198 raises; a file written by [save_status]. *)
Inductive pickle_file : Type :=
| Missing
| Unopenable
| Corrupt
| Pickled (s : status_dict).

(** The environment of the process.  [graceful_exit_in] stands for the
    signal handler: [Some n] when the global [graceful_exit] turns True
    after [n] more reads of it have seen False, [None] when no signal
    arrives.  [requested] lists the URLs given to [requests.get]. *)
Record world : Type := mkWorld {
  status_file : pickle_file;
  now : Z;
  part_table : list Part;
  graceful_exit_in : option nat;
  requested : list json
}.

Definition set_status_file (f : pickle_file) (w : world) : world :=
  mkWorld f (now w) (part_table w) (graceful_exit_in w) (requested w).

Definition set_part_table (t : list Part) (w : world) : world :=
  mkWorld (status_file w) (now w) t (graceful_exit_in w) (requested w).

(** [save_status(next_urls, meta, finished)]; the file is taken to be
    writable. *)
Definition save_status (next_urls : option (list json)) (meta : option dict)
           (finished : bool) (w : world) : world :=
  set_status_file
    (Pickled (mkStatus (if finished then Some (now w) else None)
                       meta next_urls)) w.

(** [fetch_status()]: [open] stands outside the [try], [pickle.load] and
    the subscripts inside it. *)
Definition fetch_status (w : world)
  : outcome (option (list json) * option dict * option Z) :=
  match status_file w with
  | Missing => Done (None, None, None)
  | Unopenable => Raise OSError
  | Corrupt => Done (None, None, None)
  | Pickled s => Done (sd_next_urls s, sd_meta s, sd_finished s)
  end.

(** ** Pagination crawler: [build_parts_db] *)

(** What [requests.get] gives for one request: an exception of the
    transport, or a response with its status code and its text, the text
    being [None] when [json.loads] rejects it. *)
Inductive reply : Type :=
| NoReply
| Reply (status_code : Z) (text : option json).

(** How a run of [build_parts_db] that returns came to its end: the early
    return of line 221, the save of line 314, or the save of line 316 with
    the queue and the accumulator it wrote. *)
Inductive run_end : Type :=
| NoOp
| Completed
| Interrupted (next_urls : list json) (meta : dict).

(** [timedelta(weeks=1)] and the 20 seconds of line 307, in microseconds. *)
Definition one_week : Z := 604800000000.
Definition sleep_time : Z := 20000000.

(** The accumulator of lines 227-231. *)
Definition fresh_meta : dict :=
  [("total", JNum (-1)); ("offset", JNum (-1)); ("limit", JNum (-1))].

(** One read of the global [graceful_exit]. *)
Definition graceful_exit (w : world) : bool * world :=
  match graceful_exit_in w with
  | None => (false, w)
  | Some O => (true, w)
  | Some (S n) =>
      (false, mkWorld (status_file w) (now w) (part_table w) (Some n)
                      (requested w))
  end.

Definition request (url : json) (w : world) : world :=
  mkWorld (status_file w) (now w) (part_table w) (graceful_exit_in w)
          (requested w ++ [url]).

Definition sleep (w : world) : world :=
  mkWorld (status_file w) (now w + sleep_time) (part_table w)
          (graceful_exit_in w) (requested w).

(** [meta[k]] on the accumulator. *)
Definition meta_get (meta : dict) (k : string) : outcome json :=
  match dict_get k meta with
  | Some v => Done v
  | None => Raise KeyError
  end.

(** Lines 266-278: the offset check and the merge into the accumulator. *)
Definition merge_meta (meta : dict) (response_json : json) : outcome dict :=
  present <- has_key response_json "meta";;
  if present then
    response_meta <- subscript response_json "meta";;
    last <- meta_get meta "offset";;
    offset <- subscript response_meta "offset";;
    stuck <- ge last offset;;
    if stuck then Exit (-10)
    else
      match response_meta with
      | JObj d =>
          let meta' := dict_update meta d in
          total <- meta_get meta' "total";;
          Done meta'
      | _ => Raise TypeError
      end
  else Done meta.

(** Lines 280-284: [response_data], [None] when the page has no [data]. *)
Definition read_data (response_json : json) : outcome (option json) :=
  present <- has_key response_json "data";;
  if present then
    response_data <- subscript response_json "data";;
    n <- py_len response_data;;
    Done (Some response_data)
  else Done None.

(** Lines 286-298: the next link, checked against the URL just fetched. *)
Definition follow_links (url : json) (next_urls : list json)
           (response_json : json) : outcome (list json) :=
  present <- has_key response_json "links";;
  if present then
    response_link <- subscript response_json "links";;
    next_url <- subscript response_link "next";;
    match next_url with
    | JNull => Done next_urls
    | _ => if py_eq url next_url then Exit (-6)
           else Done (next_urls ++ [next_url])
    end
  else Done next_urls.

(** Lines 264-298 on the decoded body. *)
Definition read_page (url : json) (next_urls : list json) (meta : dict)
           (response_json : json)
  : outcome (dict * option json * list json) :=
  meta' <- merge_meta meta response_json;;
  response_data <- read_data response_json;;
  next_urls' <- follow_links url next_urls response_json;;
  Done (meta', response_data, next_urls').

(** The body of the [while] loop (lines 246-309) for the popped [url], the
    rest of the queue and the reply the server gives.  The [finally] of
    line 305 saves the checkpoint and sleeps whether or not the insertion
    raised; an exception of the insertion ends in [exit(-7)]. *)
Definition crawl_page (url : json) (next_urls : list json) (meta : dict)
           (r : reply) (w : world) : outcome (list json * dict) * world :=
  let w := request url w in
  match r with
  | NoReply => (Raise RequestException, w)
  | Reply status_code text =>
      if negb (Z.eqb status_code 200) then (Exit (-5), w)
      else
        match text with
        | None => (Raise JSONDecodeError, w)
        | Some response_json =>
            match read_page url next_urls meta response_json with
            | Exit c => (Exit c, w)
            | Raise e => (Raise e, w)
            | Done (meta', response_data, next_urls') =>
                let (inserted, table) :=
                  parse_and_insert_response_parts response_data (part_table w)
                in
                let w := sleep (save_status (Some next_urls') (Some meta')
                                            false (set_part_table table w)) in
                match inserted with
                | Done _ => (Done (next_urls', meta'), w)
                | _ => (Exit (-7), w)
                end
            end
        end
  end.

(** The [while] loop of line 245, one reply of [net] per request.  The
    result is [None] when [net] holds fewer replies than the loop asks
    for.  [graceful_exit] is read only when the queue is not empty. *)
Fixpoint crawl_loop (net : list reply) (next_urls : list json) (meta : dict)
         (w : world) : option (outcome (list json * dict) * world) :=
  match next_urls with
  | [] => Some (Done ([], meta), w)
  | url :: rest =>
      let (stop, w) := graceful_exit w in
      if stop then Some (Done (next_urls, meta), w)
      else
        match net with
        | [] => None
        | r :: net' =>
            match crawl_page url rest meta r w with
            | (Done (next_urls', meta'), w') =>
                crawl_loop net' next_urls' meta' w'
            | (o, w') => Some (o, w')
            end
        end
  end.

(** Lines 311-316. *)
Definition finish (next_urls : list json) (meta : dict) (w : world)
  : run_end * world :=
  let (stop, w) := graceful_exit w in
  if negb stop then (Completed, save_status None None true w)
  else (Interrupted next_urls meta,
        save_status (Some next_urls) (Some meta) false w).

(** Lines 245-316: the loop from a queue and an accumulator, then the last
    save. *)
Definition crawl (net : list reply) (next_urls : list json) (meta : dict)
           (w : world) : option (outcome run_end * world) :=
  match crawl_loop net next_urls meta w with
  | None => None
  | Some (Done (next_urls', meta'), w') =>
      let (e, w'') := finish next_urls' meta' w' in Some (Done e, w'')
  | Some (Exit c, w') => Some (Exit c, w')
  | Some (Raise e, w') => Some (Raise e, w')
  end.

Section Crawler.
(** [config["AISLER_API"]["Parts_Url"]]; the configuration file is not
    among the sources. *)
Variable Parts_Url : string.

(** Lines 213-242: the queue and the accumulator the loop starts from, or
    [None] for the early return of line 221. *)
Definition entry (w : world) : outcome (option (list json * dict)) :=
  st <- fetch_status w;;
  let '(next_urls, meta, finished) := st in
  let guard :=
    match finished with
    | Some at_ => if Z.gtb (at_ + one_week) (now w) then None else Some None
    | None => Some meta
    end in
  match guard with
  | None => Done None
  | Some meta =>
      let meta := match meta with Some m => m | None => fresh_meta end in
      let next_urls :=
        match next_urls with Some q => q | None => [JStr Parts_Url] end in
      offset <- meta_get meta "offset";;
      resumed <- ge offset (JNum 0);;
      Done (Some (next_urls, meta))
  end.

(** [build_parts_db()] against the replies [net]. *)
Definition build_parts_db (net : list reply) (w : world)
  : option (outcome run_end * world) :=
  match entry w with
  | Exit c => Some (Exit c, w)
  | Raise e => Some (Raise e, w)
  | Done None => Some (Done NoOp, w)
  | Done (Some (next_urls, meta)) => crawl net next_urls meta w
  end.
End Crawler.

(** ** Predicates used in the statements *)

(** [p], found at position [i] of [cs], scores no more than any candidate
    and strictly less than every earlier one. *)
Definition first_minimum (dist : string -> string -> nat) (value : string)
           (cs : list Part) (i : nat) (p : Part) : Prop :=
  nth_error cs i = Some p /\
  (forall j q, nth_error cs j = Some q ->
               (dist value (mpn p) <= dist value (mpn q))%nat) /\
  (forall j q, (j < i)%nat -> nth_error cs j = Some q ->
               (dist value (mpn p) < dist value (mpn q))%nat).



(** The accumulator holds an integer offset, as every accumulator does
    that [build_parts_db] passed through line 241 or line 271. *)
Definition int_offset (meta : dict) : Prop :=
  exists v z, dict_get "offset" meta = Some v /\ as_int v = Some z.


(** The [links.next] of a reply, when it has one that is not null. *)
Definition next_of (r : reply) : option json :=
  match r with
  | Reply _ (Some (JObj body)) =>
      match dict_get "links" body with
      | Some (JObj l) =>
          match dict_get "next" l with
          | Some JNull => None
          | Some n => Some n
          | None => None
          end
      | _ => None
      end
  | _ => None
  end.

(** What a reply adds to the queue, and what a list of replies adds. *)
Definition next_list (r : reply) : list json :=
  match next_of r with Some n => [n] | None => [] end.

Definition nexts (net : list reply) : list json := flat_map next_list net.




(** ** Validation pass: [validate_parts] *)

(** Modelled from the spec: [models/items.py] declares the Item table and
    is not among the sources.  Of a row the validation pass reads the text
    [value] and writes [part_id], the link to the matched part (spec,
    QueryItem). *)
Record Item : Type := mkItem {
  value : string;
  part_id : option nat
}.

Section Validation.
(** [column.ilike(pattern)], the store's case-insensitive LIKE: the
    operator belongs to the database, so it is a parameter here. *)
Variable ilike : string -> string -> bool.

(** The query of lines 351-353: the rows whose [mpn] matches
    [f"%{item.Item.value}%"], in table order. *)
Definition related_parts_of (table : list Part) (item : Item) : list Part :=
  filter (fun row =>
            ilike (mpn row) (String.append "%" (String.append (value item) "%")))
         table.

(** One turn of the loop of line 350.  [best_match.id] on a [None] is the
    AttributeError Python raises for it. *)
Definition validate_item (table : list Part) (item : Item) : outcome Item :=
  let related_parts := related_parts_of table item in
  if Nat.ltb 0 (List.length related_parts) then
    match match_parts (value item) related_parts with
    | Some best_match => Done (mkItem (value item) (Some (id best_match)))
    | None => Raise AttributeError
    end
  else Done item.

(** [validate_parts()] on the queried items: each item is committed as it
    is matched, so the items before a failure keep their new link and the
    items from the failure on stay as they were. *)
Fixpoint validate_parts (table : list Part) (queried_items : list Item)
  : outcome unit * list Item :=
  match queried_items with
  | [] => (Done tt, [])
  | item :: rest =>
      match validate_item table item with
      | Done item' =>
          let (o, rest') := validate_parts table rest in (o, item' :: rest')
      | Exit c => (Exit c, queried_items)
      | Raise e => (Raise e, queried_items)
      end
  end.
End Validation.

(** ** Further predicates used in the statements *)

(** The checkpoint file does not say that a crawl has finished. *)
Definition unfinished (f : pickle_file) : Prop :=
  match f with
  | Pickled s => sd_finished s = None
  | _ => True
  end.

(** The integer offset of an accumulator, when it holds one. *)
Definition offset_in (meta : dict) : option Z :=
  match dict_get "offset" meta with
  | Some v => as_int v
  | None => None
  end.

(** ** Sample data for the examples *)

Definition atmega328p : Part := mkPart 1 "a1" "ATMEGA328P" "Microchip" "MCU" "".
Definition atmega644 : Part := mkPart 2 "a2" "ATMEGA644" "Microchip" "MCU" "".
Definition ne555 : Part := mkPart 3 "a3" "NE555" "TI" "Timer" "".
Definition ne556 : Part := mkPart 4 "a4" "NE556" "TI" "Timer" "".

(** A payload of the catalog API (JSON:API resource object). *)
Definition payload (key m f s d : string) : json :=
  JObj [("id", JStr key);
        ("type", JStr "parts");
        ("attributes",
         JObj [("mpn", JStr m); ("manufacturer", JStr f);
               ("datasheet", JStr s); ("description", JStr d)])].

Definition first_payload : json :=
  payload "4711" "ATMEGA328" "Atmel" "http://a/ds.pdf" "8-bit MCU".
Definition second_payload : json :=
  payload "4711" "ATMEGA328P-PU" "Microchip" "http://m/ds.pdf" "8-bit AVR MCU".

Definition start_url : string := "https://api.example/parts".

Definition idle_world (f : pickle_file) (t : Z) : world :=
  mkWorld f t [] None [].

(** A page of the catalog API with its pagination metadata and links. *)
Definition page (offset total : Z) (parts : list json) (next : json) : json :=
  JObj [("data", JArr parts);
        ("meta", JObj [("offset", JNum offset); ("total", JNum total);
                       ("limit", JNum 50)]);
        ("links", JObj [("next", next)])].

Definition page2_url : string := "https://api.example/parts?page=2".

(** A first run that a signal stops after its first page. *)
Definition signalled_world : world := mkWorld Missing 0 [] (Some 1%nat) [].

Definition two_pages : list reply :=
  [Reply 200 (Some (page 0 120 [first_payload] (JStr page2_url)));
   Reply 200 (Some (page 50 120 [second_payload] JNull))].

Definition meta_after_page1 : dict :=
  [("total", JNum 120); ("offset", JNum 0); ("limit", JNum 50)].


(** A page whose second payload has no [attributes]. *)
Definition broken_page : json :=
  JObj [("data", JArr [first_payload; JObj [("id", JStr "5")]]);
        ("meta", JObj [("offset", JNum 0); ("total", JNum 120)]);
        ("links", JObj [("next", JStr page2_url)])].

(** Items of a design file. *)
Definition item_ne55 : Item := mkItem "NE55" None.
Definition item_unknown : Item := mkItem "XYZ" (Some 7%nat).

(** A stand-in for the store's [ilike] on the sample data: the pattern
    [%NE55%] matches the two timers, nothing else matches. *)
Definition sample_ilike (column pattern : string) : bool :=
  String.eqb pattern "%NE55%" &&
  (String.eqb column "NE555" || String.eqb column "NE556").
(** * Verification *)

(** ** Fuzzy matcher *)

Section MatcherFacts.
Variable dist : string -> string -> nat.
Variable value : string.

Lemma match_loop_snoc (b : best_t) (cs : list Part) (x : Part) :
  match_loop dist value b (cs ++ [x]) =
  match_step dist value (match_loop dist value b cs) x.
Proof. unfold match_loop. now rewrite fold_left_app. Qed.

Lemma nth_error_snoc_last (cs : list Part) (x q : Part) (j : nat) :
  (List.length cs <= j)%nat -> nth_error (cs ++ [x]) j = Some q -> q = x.
Proof.
  intros Hout Hj. rewrite nth_error_app2 in Hj by assumption.
  destruct (j - List.length cs)%nat as [| [| k]]; simpl in Hj;
    congruence.
Qed.

Lemma first_minimum_keep cs i p x :
  first_minimum dist value cs i p ->
  (dist value (mpn p) <= dist value (mpn x))%nat ->
  first_minimum dist value (cs ++ [x]) i p.
Proof.
  intros (Hi & Hle & Hlt) Hx.
  assert (Hlen : (i < List.length cs)%nat).
  { apply nth_error_Some. congruence. }
  repeat split.
  - rewrite nth_error_app1; assumption.
  - intros j q Hj.
    destruct (Nat.lt_ge_cases j (List.length cs)) as [Hin | Hout].
    + rewrite nth_error_app1 in Hj by assumption. eauto.
    + now rewrite (nth_error_snoc_last cs x q j Hout Hj).
  - intros j q Hji Hj.
    rewrite nth_error_app1 in Hj by lia. eauto.
Qed.

Lemma first_minimum_take cs i p x :
  first_minimum dist value cs i p ->
  (dist value (mpn x) < dist value (mpn p))%nat ->
  first_minimum dist value (cs ++ [x]) (List.length cs) x.
Proof.
  intros (Hi & Hle & Hlt) Hx.
  repeat split.
  - rewrite nth_error_app2 by lia. now rewrite Nat.sub_diag.
  - intros j q Hj.
    destruct (Nat.lt_ge_cases j (List.length cs)) as [Hin | Hout].
    + rewrite nth_error_app1 in Hj by assumption.
      specialize (Hle j q Hj). lia.
    + rewrite (nth_error_snoc_last cs x q j Hout Hj). lia.
  - intros j q Hjl Hj.
    rewrite nth_error_app1 in Hj by assumption.
    specialize (Hle j q Hj). lia.
Qed.

(** Loop invariant: on a non-empty prefix [best] holds the first minimum
    of the prefix together with its score. *)
Lemma match_loop_invariant (cs : list Part) :
  cs <> [] ->
  exists i p,
    match_loop dist value (mkBest None None) cs =
      mkBest (Some p) (Some (dist value (mpn p))) /\
    first_minimum dist value cs i p.
Proof.
  induction cs as [| x cs IH] using rev_ind; [congruence |].
  intros _. rewrite match_loop_snoc.
  destruct cs as [| c cs'].
  - exists 0%nat, x. split; [reflexivity |].
    repeat split.
    + intros j q Hj. destruct j as [| [| j]]; simpl in Hj; try discriminate.
      injection Hj as <-. lia.
    + intros j q Hj. lia.
  - destruct IH as (i & p & Hrun & Hmin); [discriminate |].
    rewrite Hrun. unfold match_step. cbn [best_dist].
    destruct (Nat.ltb_spec (dist value (mpn x)) (dist value (mpn p)))
      as [Hlt | Hge].
    + exists (List.length (c :: cs')), x. split; [reflexivity |].
      eapply first_minimum_take; eassumption.
    + exists i, p. split; [reflexivity |].
      apply first_minimum_keep; assumption.
Qed.
End MatcherFacts.

(** C1.  On a non-empty candidate list [match_parts] returns a candidate
    of the list whose [mpn] is at the least Levenshtein distance from the
    query value, and every candidate before it in the list is strictly
    farther: among the candidates at the least distance it is the first. *)
Theorem match_parts_first_minimum (value : string) (related_parts : list Part) :
  related_parts <> [] ->
  exists i p,
    match_parts value related_parts = Some p /\
    first_minimum levenshtein_distance value related_parts i p.
Proof.
  intros Hne.
  destruct (match_loop_invariant levenshtein_distance value related_parts Hne)
    as (i & p & Hrun & Hmin).
  exists i, p. split; [| exact Hmin].
  unfold match_parts, match_parts_with. now rewrite Hrun.
Qed.

Lemma match_parts_first_minimum_witness :
  exists i p,
    match_parts "NE55" [ne555; ne556] = Some p /\
    first_minimum levenshtein_distance "NE55" [ne555; ne556] i p.
Proof.
  apply (match_parts_first_minimum "NE55" [ne555; ne556]). discriminate.
Defined.

(** The example of the spec: the nearer part number wins. *)
Example match_parts_atmega :
  match_parts "ATMEGA328" [atmega328p; atmega644] = Some atmega328p.
Proof. vm_compute. reflexivity. Qed.

(** Two candidates at the same distance: the first of the list wins,
    whichever it is. *)
Example match_parts_tie :
  match_parts "NE55" [ne555; ne556] = Some ne555 /\
  match_parts "NE55" [ne556; ne555] = Some ne556.
Proof. vm_compute. split; reflexivity. Qed.

(** C10.  With no candidate at all [match_parts] returns [None] and raises
    nothing. *)
Theorem match_parts_no_candidate (value : string) :
  match_parts value [] = None.
Proof. reflexivity. Qed.

(** ** Record repository *)

Lemma query_first_none_existsb (key : string) (table : list Part) :
  query_first key table = None ->
  existsb (fun r => String.eqb (aisler_id r) key) table = false.
Proof.
  unfold query_first. induction table as [| row table IH]; simpl; [easy |].
  destruct (String.eqb (aisler_id row) key); [discriminate | exact IH].
Qed.

(** A payload whose [id] is already stored leaves the table as it was,
    whatever its other fields. *)
Lemma store_part_known_key ap key row table :
  as_column (ap_aisler_id ap) = Some key ->
  query_first key table = Some row ->
  store_part ap table = (Done tt, table).
Proof. intros Hk Hq. unfold store_part. now rewrite Hk, Hq. Qed.


(** C2 (the code departs from the claim).  Upserting [first_payload] and
    then [second_payload], which carries the same [id] and other field
    values, leaves one row, and the row holds the values of the first
    payload: line 143 rebinds a local name and the commit writes nothing. *)
Theorem upsert_twice_keeps_first_values :
  let table1 := snd (parse_and_insert_response_parts
                       (Some (JArr [first_payload])) []) in
  let table2 := snd (parse_and_insert_response_parts
                       (Some (JArr [second_payload])) table1) in
  table1 = [mkPart 1 "4711" "ATMEGA328" "Atmel" "8-bit MCU" "http://a/ds.pdf"] /\
  fst (parse_and_insert_response_parts (Some (JArr [second_payload])) table1)
    = Done tt /\
  table2 = table1 /\
  map mpn table2 <> ["ATMEGA328P-PU"].
Proof. vm_compute. repeat split; try reflexivity. discriminate. Qed.

(** ** Checkpoint store *)

(** A missing file and a file that does not unpickle to a status dict
    both load as the three [None]. *)
Lemma fetch_status_absent (w : world) :
  status_file w = Missing \/ status_file w = Corrupt ->
  fetch_status w = Done (None, None, None).
Proof. unfold fetch_status. intros [-> | ->]; reflexivity. Qed.

(** What [save_status] wrote is what [fetch_status] reads. *)
Lemma fetch_after_save next_urls meta finished (w : world) :
  fetch_status (save_status next_urls meta finished w) =
  Done (next_urls, meta, if finished then Some (now w) else None).
Proof. reflexivity. Qed.

(** C9 (the code departs from the claim).  When the status file exists and
    cannot be opened for reading, [fetch_status] raises: the [open] of
    line 195 is outside the [try] of line 196. *)
Theorem fetch_status_unopenable_raises (t : Z) (table : list Part)
        (g : option nat) (req : list json) :
  fetch_status (mkWorld Unopenable t table g req) = Raise OSError.
Proof. reflexivity. Qed.

(** ** Entry guard *)

(** C7.  After [save_status(next_urls, meta, True)] the checkpoint loads
    with its finish time set, and a run of [build_parts_db] that finds this
    checkpoint strictly less than one week after that time returns at once:
    no request, no write, the environment as it was. *)
Theorem finished_checkpoint_cooldown
        (Parts_Url : string) (next_urls : option (list json))
        (meta : option dict) (w0 w : world) (net : list reply) :
  status_file w = status_file (save_status next_urls meta true w0) ->
  now w < now w0 + one_week ->
  fetch_status (save_status next_urls meta true w0)
    = Done (next_urls, meta, Some (now w0)) /\
  fetch_status w = Done (next_urls, meta, Some (now w0)) /\
  build_parts_db Parts_Url net w = Some (Done NoOp, w).
Proof.
  intros Hfile Hnow. split; [reflexivity |].
  assert (Hload : fetch_status w = Done (next_urls, meta, Some (now w0))).
  { unfold fetch_status. rewrite Hfile. reflexivity. }
  split; [exact Hload |].
  unfold build_parts_db, entry. rewrite Hload. cbn [bind].
  destruct (Z.gtb_spec (now w0 + one_week) (now w)) as [_ | Hle]; [| lia].
  reflexivity.
Qed.

Lemma finished_checkpoint_cooldown_witness :
  fetch_status (save_status (Some []) (Some fresh_meta) true
                            (idle_world Missing 1000))
    = Done (Some [], Some fresh_meta, Some 1000) /\
  fetch_status
    (mkWorld (Pickled (mkStatus (Some 1000) (Some fresh_meta) (Some [])))
             (1000 + 3 * 86400000000) [] None [])
    = Done (Some [], Some fresh_meta, Some 1000) /\
  build_parts_db start_url [NoReply]
    (mkWorld (Pickled (mkStatus (Some 1000) (Some fresh_meta) (Some [])))
             (1000 + 3 * 86400000000) [] None [])
  = Some (Done NoOp,
          mkWorld (Pickled (mkStatus (Some 1000) (Some fresh_meta) (Some [])))
                  (1000 + 3 * 86400000000) [] None []).
Proof.
  exact (finished_checkpoint_cooldown start_url (Some []) (Some fresh_meta)
           (idle_world Missing 1000)
           (mkWorld (Pickled (mkStatus (Some 1000) (Some fresh_meta) (Some [])))
                    (1000 + 3 * 86400000000) [] None [])
           [NoReply] eq_refl eq_refl).
Defined.

(** ** Reading a page *)

Lemma subscript_done (x : json) (k : string) (v : json) :
  subscript x k = Done v -> exists d, x = JObj d /\ dict_get k d = Some v.
Proof.
  destruct x; simpl; try discriminate.
  destruct (dict_get k d) eqn:E; [| discriminate].
  intros [= <-]. now exists d.
Qed.

Lemma has_key_present (d : dict) (k : string) (v : json) :
  dict_get k d = Some v -> has_key (JObj d) k = Done true.
Proof. intros H. unfold has_key, dict_has. now rewrite H. Qed.


Lemma subscript_present (d : dict) (k : string) (v : json) :
  dict_get k d = Some v -> subscript (JObj d) k = Done v.
Proof. intros H. unfold subscript. now rewrite H. Qed.

(** The environment after a read of the flag that saw False differs from
    the one before in the flag only. *)
Lemma graceful_exit_false (w : world) :
  graceful_exit_in w <> Some 0%nat ->
  fst (graceful_exit w) = false /\
  status_file (snd (graceful_exit w)) = status_file w /\
  now (snd (graceful_exit w)) = now w /\
  part_table (snd (graceful_exit w)) = part_table w /\
  requested (snd (graceful_exit w)) = requested w.
Proof.
  unfold graceful_exit. destruct (graceful_exit_in w) as [[| n] |];
    [congruence | |]; intros _; repeat split; reflexivity.
Qed.

(** One turn of the loop when the flag is not set. *)
Lemma crawl_loop_step net r url rest meta (w : world) :
  graceful_exit_in w <> Some 0%nat ->
  crawl_loop (r :: net) (url :: rest) meta w =
  match crawl_page url rest meta r (snd (graceful_exit w)) with
  | (Done (next_urls', meta'), w') => crawl_loop net next_urls' meta' w'
  | (o, w') => Some (o, w')
  end.
Proof.
  intros Hflag. destruct (graceful_exit_false w Hflag) as (Hf & _).
  cbn [crawl_loop]. destruct (graceful_exit w) as [stop w1].
  simpl in Hf. subst stop. reflexivity.
Qed.

(** A page whose body makes [read_page] exit or raise ends the loop there,
    with nothing written and nothing inserted. *)
Lemma crawl_loop_read_exit net url rest meta body (w : world) (c : Z) :
  graceful_exit_in w <> Some 0%nat ->
  read_page url rest meta body = Exit c ->
  crawl_loop (Reply 200 (Some body) :: net) (url :: rest) meta w =
  Some (Exit c, request url (snd (graceful_exit w))).
Proof.
  intros Hflag Hread. rewrite crawl_loop_step by assumption.
  unfold crawl_page. change (Z.eqb 200 200) with true. cbn [negb].
  now rewrite Hread.
Qed.

Lemma crawl_loop_read_raise net url rest meta body (w : world) (e : exn) :
  graceful_exit_in w <> Some 0%nat ->
  read_page url rest meta body = Raise e ->
  crawl_loop (Reply 200 (Some body) :: net) (url :: rest) meta w =
  Some (Raise e, request url (snd (graceful_exit w))).
Proof.
  intros Hflag Hread. rewrite crawl_loop_step by assumption.
  unfold crawl_page. change (Z.eqb 200 200) with true. cbn [negb].
  now rewrite Hread.
Qed.

(** C3.  A page (status 200) whose [meta.offset] is at most the offset in
    the accumulator ends the run with [exit(-10)]: the URL was requested,
    nothing was added to the queue, no checkpoint was written, no part
    inserted, and no later reply of [net] is asked for.  The statement is
    about the loop in any state it can be in, hence about any page of a
    fetch sequence. *)
Theorem offset_not_increasing_fails
        (net : list reply) (url : json) (rest : list json) (meta : dict)
        (w : world) (response_json response_meta : json) (last offset : Z) :
  graceful_exit_in w <> Some 0%nat ->
  subscript response_json "meta" = Done response_meta ->
  meta_get meta "offset" = Done (JNum last) ->
  subscript response_meta "offset" = Done (JNum offset) ->
  offset <= last ->
  exists w',
    crawl_loop (Reply 200 (Some response_json) :: net) (url :: rest) meta w
      = Some (Exit (-10), w') /\
    crawl (Reply 200 (Some response_json) :: net) (url :: rest) meta w
      = Some (Exit (-10), w') /\
    requested w' = requested w ++ [url] /\
    status_file w' = status_file w /\
    part_table w' = part_table w.
Proof.
  intros Hflag Hmeta Hlast Hoff Hle.
  destruct (graceful_exit_false w Hflag) as (_ & Hfile & _ & Htab & Hreq).
  destruct (subscript_done _ _ _ Hmeta) as (d & -> & Hd).
  assert (Hread : read_page url rest meta (JObj d) = Exit (-10)).
  { unfold read_page, merge_meta.
    rewrite (has_key_present d "meta" response_meta Hd). cbn [bind].
    rewrite (subscript_present d "meta" response_meta Hd). cbn [bind].
    rewrite Hlast. cbn [bind]. rewrite Hoff. cbn [bind].
    unfold ge. cbn [py_ge as_int].
    destruct (Z.geb_spec last offset) as [_ | Hlt]; [reflexivity | lia]. }
  assert (Hloop : crawl_loop (Reply 200 (Some (JObj d)) :: net) (url :: rest)
                    meta w
                  = Some (Exit (-10), request url (snd (graceful_exit w)))).
  { now apply crawl_loop_read_exit. }
  exists (request url (snd (graceful_exit w))).
  split; [exact Hloop |].
  split; [unfold crawl; now rewrite Hloop |].
  cbn [request requested status_file part_table].
  now rewrite Hreq, Hfile, Htab.
Qed.

Lemma offset_not_increasing_fails_witness :
  exists w',
    crawl_loop [Reply 200 (Some (page 50 120 [second_payload] JNull)); NoReply]
               [JStr page2_url; JStr start_url]
               (dict_set "offset" (JNum 50) fresh_meta)
               (idle_world Missing 0)
      = Some (Exit (-10), w') /\
    crawl [Reply 200 (Some (page 50 120 [second_payload] JNull)); NoReply]
          [JStr page2_url; JStr start_url]
          (dict_set "offset" (JNum 50) fresh_meta)
          (idle_world Missing 0)
      = Some (Exit (-10), w') /\
    requested w' = requested (idle_world Missing 0) ++ [JStr page2_url] /\
    status_file w' = status_file (idle_world Missing 0) /\
    part_table w' = part_table (idle_world Missing 0).
Proof.
  apply (offset_not_increasing_fails [NoReply] (JStr page2_url)
           [JStr start_url] (dict_set "offset" (JNum 50) fresh_meta)
           (idle_world Missing 0) (page 50 120 [second_payload] JNull)
           (JObj [("offset", JNum 50); ("total", JNum 120); ("limit", JNum 50)])
           50 50).
  - discriminate.
  - reflexivity.
  - reflexivity.
  - reflexivity.
  - lia.
Defined.

(** C5.  A page (status 200) whose [links.next] is the URL just requested
    ends the run: the URL is not added to the queue, no checkpoint is
    written and no part inserted.  The run ends with [exit(-6)] whenever
    the metadata and the data of the page were read without failure; it
    has failed before reaching the link otherwise. *)
Theorem self_link_fails
        (net : list reply) (u : string) (rest : list json) (meta : dict)
        (w : world) (response_json response_link : json) :
  graceful_exit_in w <> Some 0%nat ->
  subscript response_json "links" = Done response_link ->
  subscript response_link "next" = Done (JStr u) ->
  exists o w',
    crawl_loop (Reply 200 (Some response_json) :: net) (JStr u :: rest) meta w
      = Some (o, w') /\
    aborted o = true /\
    (forall meta' data,
        merge_meta meta response_json = Done meta' ->
        read_data response_json = Done data -> o = Exit (-6)) /\
    requested w' = requested w ++ [JStr u] /\
    status_file w' = status_file w /\
    part_table w' = part_table w.
Proof.
  intros Hflag Hlinks Hnext.
  destruct (graceful_exit_false w Hflag) as (_ & Hfile & _ & Htab & Hreq).
  destruct (subscript_done _ _ _ Hlinks) as (d & -> & Hd).
  assert (Hfollow : follow_links (JStr u) rest (JObj d) = Exit (-6)).
  { unfold follow_links.
    rewrite (has_key_present d "links" response_link Hd). cbn [bind].
    rewrite (subscript_present d "links" response_link Hd). cbn [bind].
    rewrite Hnext. cbn [bind py_eq]. now rewrite String.eqb_refl. }
  assert (Hab : aborted (read_page (JStr u) rest meta (JObj d)) = true).
  { unfold read_page.
    destruct (merge_meta meta (JObj d)); cbn [bind]; try reflexivity.
    destruct (read_data (JObj d)); cbn [bind]; try reflexivity.
    now rewrite Hfollow. }
  assert (Hcode : forall meta' data,
             merge_meta meta (JObj d) = Done meta' ->
             read_data (JObj d) = Done data ->
             read_page (JStr u) rest meta (JObj d) = Exit (-6)).
  { intros meta' data Hm Hdat. unfold read_page.
    rewrite Hm. cbn [bind]. rewrite Hdat. cbn [bind]. now rewrite Hfollow. }
  assert (Hworld :
            requested (request (JStr u) (snd (graceful_exit w)))
              = requested w ++ [JStr u] /\
            status_file (request (JStr u) (snd (graceful_exit w)))
              = status_file w /\
            part_table (request (JStr u) (snd (graceful_exit w)))
              = part_table w).
  { cbn [request requested status_file part_table].
    now rewrite Hreq, Hfile, Htab. }
  destruct (read_page (JStr u) rest meta (JObj d)) as [x | c | e] eqn:Hread;
    [discriminate | |].
  - exists (Exit c), (request (JStr u) (snd (graceful_exit w))).
    split; [now apply crawl_loop_read_exit |].
    split; [reflexivity |]. split; [| exact Hworld].
    intros meta' data Hm Hdat.
    injection (Hcode meta' data Hm Hdat) as ->. reflexivity.
  - exists (Raise e), (request (JStr u) (snd (graceful_exit w))).
    split; [now apply crawl_loop_read_raise |].
    split; [reflexivity |]. split; [| exact Hworld].
    intros meta' data Hm Hdat. discriminate (Hcode meta' data Hm Hdat).
Qed.

Lemma self_link_fails_witness :
  exists o w',
    crawl_loop [Reply 200 (Some (page 0 120 [first_payload] (JStr start_url)))]
               [JStr start_url] fresh_meta (idle_world Missing 0)
      = Some (o, w') /\
    aborted o = true /\
    (forall meta' data,
        merge_meta fresh_meta (page 0 120 [first_payload] (JStr start_url))
          = Done meta' ->
        read_data (page 0 120 [first_payload] (JStr start_url)) = Done data ->
        o = Exit (-6)) /\
    requested w' = requested (idle_world Missing 0) ++ [JStr start_url] /\
    status_file w' = status_file (idle_world Missing 0) /\
    part_table w' = part_table (idle_world Missing 0).
Proof.
  apply (self_link_fails [] start_url [] fresh_meta (idle_world Missing 0)
           (page 0 120 [first_payload] (JStr start_url))
           (JObj [("next", JStr start_url)])).
  - discriminate.
  - reflexivity.
  - reflexivity.
Defined.

(** The sample self-linking page does end in [exit(-6)]. *)
Example self_link_exit_code :
  crawl_loop [Reply 200 (Some (page 0 120 [first_payload] (JStr start_url)))]
             [JStr start_url] fresh_meta (idle_world Missing 0)
  = Some (Exit (-6), mkWorld Missing 0 [] None [JStr start_url]).
Proof. vm_compute. reflexivity. Qed.

(** ** Inserting the parts of a page *)






(** A page without a [data] member: [response_data] stays [None], the
    [for] of line 115 cannot iterate it, and the run ends in [exit(-7)]
    after the checkpoint of the [finally] was written. *)
Example page_without_data_exits :
  crawl_page (JStr start_url) [] fresh_meta
             (Reply 200 (Some (JObj [("links", JObj [("next", JNull)])])))
             (idle_world Missing 0)
  = (Exit (-7),
     mkWorld (Pickled (mkStatus None (Some fresh_meta) (Some [])))
             sleep_time [] None [JStr start_url]).
Proof. vm_compute. reflexivity. Qed.



(** ** The accumulator *)

Lemma dict_get_set (k k' : string) (v : json) (d : dict) :
  dict_get k (dict_set k' v d) =
  if String.eqb k k' then Some v else dict_get k d.
Proof.
  induction d as [| [k0 v0] d IH]; cbn [dict_set dict_get].
  - reflexivity.
  - destruct (String.eqb_spec k' k0) as [-> | Hne]; cbn [dict_get].
    + destruct (String.eqb k k0); reflexivity.
    + rewrite IH. destruct (String.eqb_spec k k0) as [-> | Hne'].
      * destruct (String.eqb_spec k0 k'); [congruence | reflexivity].
      * reflexivity.
Qed.

Lemma dict_get_keys (k : string) (e : dict) :
  existsb (String.eqb k) (map fst e) = false <-> dict_get k e = None.
Proof.
  induction e as [| [k0 v0] e IH]; cbn [map fst existsb dict_get].
  - tauto.
  - destruct (String.eqb k k0); cbn [orb]; [split; discriminate | exact IH].
Qed.

Lemma dict_get_update_keys (k : string) (e : dict) (ks : list string) :
  forall d,
    dict_get k (fold_left (fun acc k0 =>
                             match dict_get k0 e with
                             | Some v => dict_set k0 v acc
                             | None => acc
                             end) ks d) =
    if existsb (String.eqb k) ks
    then match dict_get k e with Some v => Some v | None => dict_get k d end
    else dict_get k d.
Proof.
  induction ks as [| k0 ks IH]; intros d; cbn [fold_left existsb].
  - reflexivity.
  - rewrite IH. destruct (String.eqb_spec k k0) as [-> | Hne]; cbn [orb].
    + destruct (dict_get k0 e) as [v |] eqn:E.
      * rewrite dict_get_set, String.eqb_refl.
        now destruct (existsb (String.eqb k0) ks).
      * now destruct (existsb (String.eqb k0) ks).
    + destruct (dict_get k0 e) as [v |] eqn:E; [| reflexivity].
      rewrite dict_get_set.
      destruct (String.eqb_spec k k0); [congruence | reflexivity].
Qed.

(** [d.update(e)] read back: the value of [e] where [e] has the key, the
    value of [d] elsewhere. *)
Lemma dict_get_update (k : string) (d e : dict) :
  dict_get k (dict_update d e) =
  match dict_get k e with Some v => Some v | None => dict_get k d end.
Proof.
  unfold dict_update. rewrite dict_get_update_keys.
  destruct (existsb (String.eqb k) (map fst e)) eqn:E; [reflexivity |].
  apply dict_get_keys in E. now rewrite E.
Qed.

Lemma ge_int_right (a b : json) (r : bool) (z : Z) :
  ge a b = Done r -> as_int a = Some z -> exists z', as_int b = Some z'.
Proof.
  unfold ge. intros Hge Ha.
  destruct a as [| [|] | x | s | l | d]; try discriminate Ha;
    cbn [py_ge as_int] in Hge;
    (destruct (as_int b) as [z' |]; [now exists z' | discriminate]).
Qed.

Lemma ge_int_left (a : json) (r : bool) (z : Z) :
  ge a (JNum z) = Done r -> exists z', as_int a = Some z'.
Proof.
  unfold ge. intros Hge.
  destruct a as [| [|] | x | s | l | d]; cbn [py_ge as_int] in Hge;
    try discriminate Hge; cbn [as_int]; eauto.
Qed.

Lemma bind_done {A B} (m : outcome A) (k : A -> outcome B) (b : B) :
  bind m k = Done b -> exists a, m = Done a /\ k a = Done b.
Proof. destruct m; cbn [bind]; [eauto | discriminate..]. Qed.

(** The merge keeps an integer offset in the accumulator. *)
Lemma merge_meta_int_offset (meta meta' : dict) (body : json) :
  merge_meta meta body = Done meta' -> int_offset meta -> int_offset meta'.
Proof.
  unfold merge_meta. intros Hm (v & z & Hv & Hz).
  apply bind_done in Hm as ([|] & _ & Hm); [| now injection Hm as <-; exists v, z].
  apply bind_done in Hm as (response_meta & _ & Hm).
  apply bind_done in Hm as (last & Hlast & Hm).
  apply bind_done in Hm as (offset & Hoff & Hm).
  apply bind_done in Hm as (stuck & Hge & Hm).
  destruct stuck; [discriminate |].
  destruct response_meta as [| | | | | d]; try discriminate.
  apply bind_done in Hm as (total & _ & Hm). injection Hm as <-.
  unfold meta_get in Hlast. rewrite Hv in Hlast. injection Hlast as <-.
  destruct (ge_int_right v offset false z Hge Hz) as (z' & Hz').
  exists offset, z'. split; [| exact Hz'].
  rewrite dict_get_update.
  apply subscript_done in Hoff as (d0 & [= <-] & ->). reflexivity.
Qed.

(** ** The loop *)

(** A turn of the loop that goes on has read a page with status 200 and
    written the checkpoint. *)
Lemma crawl_page_done_inv url rest meta r (w : world) q1 m1 w1 :
  crawl_page url rest meta r w = (Done (q1, m1), w1) ->
  exists body data table,
    r = Reply 200 (Some body) /\
    read_page url rest meta body = Done (m1, data, q1) /\
    w1 = sleep (save_status (Some q1) (Some m1) false
                            (set_part_table table (request url w))).
Proof.
  unfold crawl_page. destruct r as [| code [body |]]; try discriminate.
  - destruct (Z.eqb_spec code 200) as [-> | Hne]; cbn [negb]; [| discriminate].
    destruct (read_page url rest meta body) as [[[m d] q] | c | e] eqn:Hread;
      try discriminate.
    destruct (parse_and_insert_response_parts d (part_table (request url w)))
      as [[[] | c | e] table]; try discriminate.
    intros [= <- <- <-]. exists body, d, table. now rewrite Hread.
  - destruct (negb (Z.eqb code 200)); discriminate.
Qed.

Lemma read_page_int_offset url rest meta body m1 data q1 :
  read_page url rest meta body = Done (m1, data, q1) ->
  int_offset meta -> int_offset m1.
Proof.
  unfold read_page. intros Hr Hint.
  apply bind_done in Hr as (m & Hm & Hr).
  apply bind_done in Hr as (d & _ & Hr).
  apply bind_done in Hr as (q & _ & Hr).
  injection Hr as <- _ _. exact (merge_meta_int_offset meta m body Hm Hint).
Qed.

Lemma crawl_loop_int_offset (net : list reply) :
  forall q m (w : world) q' m' w',
    crawl_loop net q m w = Some (Done (q', m'), w') ->
    int_offset m -> int_offset m'.
Proof.
  induction net as [| r net IH]; intros q m w q' m' w' Hloop Hint;
    destruct q as [| url rest]; cbn [crawl_loop] in Hloop.
  - now injection Hloop as _ <- _.
  - destruct (graceful_exit w) as [[|] w1]; [| discriminate].
    now injection Hloop as _ <- _.
  - now injection Hloop as _ <- _.
  - destruct (graceful_exit w) as [[|] w1].
    + now injection Hloop as _ <- _.
    + destruct (crawl_page url rest m r w1) as [[[q1 m1] | c | e] w2] eqn:Hpage;
        try discriminate.
      destruct (crawl_page_done_inv _ _ _ _ _ _ _ _ Hpage)
        as (body & data & table & _ & Hread & _).
      eapply IH; [exact Hloop |].
      eapply read_page_int_offset; eassumption.
Qed.

(** The loop leaves a non-empty queue only when it has seen the flag. *)
Lemma crawl_loop_stopped (net : list reply) :
  forall q m (w : world) q' m' w',
    crawl_loop net q m w = Some (Done (q', m'), w') ->
    q' <> [] -> graceful_exit_in w' = Some 0%nat.
Proof.
  assert (Hflag : forall w w1, graceful_exit w = (true, w1) ->
                               graceful_exit_in w1 = Some 0%nat).
  { intros w w1. unfold graceful_exit.
    destruct (graceful_exit_in w) as [[| n] |] eqn:E; try discriminate.
    now intros [= <-]. }
  induction net as [| r net IH]; intros q m w q' m' w' Hloop Hne;
    destruct q as [| url rest]; cbn [crawl_loop] in Hloop.
  - injection Hloop as <- _ _. congruence.
  - destruct (graceful_exit w) as [[|] w1] eqn:Hg; [| discriminate].
    injection Hloop as _ _ <-. eauto.
  - injection Hloop as <- _ _. congruence.
  - destruct (graceful_exit w) as [[|] w1] eqn:Hg.
    + injection Hloop as _ _ <-. eauto.
    + destruct (crawl_page url rest m r w1) as [[[q1 m1] | c | e] w2];
        try discriminate.
      eapply IH; eassumption.
Qed.

Lemma entry_int_offset (Parts_Url : string) (w : world) q m :
  entry Parts_Url w = Done (Some (q, m)) -> int_offset m.
Proof.
  unfold entry. intros He.
  apply bind_done in He as ([[next_urls meta] finished] & _ & He).
  destruct (match finished with
            | Some at_ =>
                if Z.gtb (at_ + one_week) (now w) then None else Some None
            | None => Some meta
            end) as [meta0 |]; [| discriminate].
  apply bind_done in He as (offset & Hoff & He).
  apply bind_done in He as (resumed & Hge & He).
  injection He as _ <-.
  destruct (ge_int_left offset resumed 0 Hge) as (z & Hz).
  exists offset, z. split; [| exact Hz].
  unfold meta_get in Hoff.
  destruct (dict_get "offset"
              match meta0 with Some m0 => m0 | None => fresh_meta end);
    now inversion Hoff.
Qed.

(** A run that finds an unfinished checkpoint with an integer offset
    starts the loop from the queue and the accumulator of the
    checkpoint. *)
Lemma entry_resumes (Parts_Url : string) (w : world) q m :
  status_file w = Pickled (mkStatus None (Some m) (Some q)) ->
  int_offset m ->
  entry Parts_Url w = Done (Some (q, m)).
Proof.
  intros Hfile (v & z & Hv & Hz). unfold entry, fetch_status.
  rewrite Hfile. cbn [bind sd_next_urls sd_meta sd_finished].
  unfold meta_get. rewrite Hv. cbn [bind]. unfold ge.
  destruct v as [| [|] | x | s | l | d]; try discriminate Hz; reflexivity.
Qed.

(** C8.  When the loop of a run stops with a non-empty queue [q], which
    only the stop flag brings about, the run returns through line 316: the
    checkpoint it leaves holds exactly [q] and the accumulator, with no
    finish time, and every later run that finds this checkpoint is the
    loop started from [q] and that accumulator. *)
Theorem interrupted_run_resumes
        (Parts_Url : string) (net : list reply) (w w1 : world)
        (q0 q : list json) (m0 m : dict) :
  entry Parts_Url w = Done (Some (q0, m0)) ->
  crawl_loop net q0 m0 w = Some (Done (q, m), w1) ->
  q <> [] ->
  exists w',
    build_parts_db Parts_Url net w = Some (Done (Interrupted q m), w') /\
    status_file w' = Pickled (mkStatus None (Some m) (Some q)) /\
    forall (net2 : list reply) (w2 : world),
      status_file w2 = status_file w' ->
      fetch_status w2 = Done (Some q, Some m, None) /\
      build_parts_db Parts_Url net2 w2 = crawl net2 q m w2.
Proof.
  intros Hentry Hloop Hne.
  assert (Hint : int_offset m).
  { eapply crawl_loop_int_offset; [exact Hloop |].
    eapply entry_int_offset; exact Hentry. }
  pose proof (crawl_loop_stopped net q0 m0 w q m w1 Hloop Hne) as Hflag.
  exists (save_status (Some q) (Some m) false w1).
  assert (Hfile : status_file (save_status (Some q) (Some m) false w1)
                  = Pickled (mkStatus None (Some m) (Some q))) by reflexivity.
  split.
  { unfold build_parts_db. rewrite Hentry. unfold crawl. rewrite Hloop.
    unfold finish, graceful_exit. rewrite Hflag. reflexivity. }
  split; [exact Hfile |].
  intros net2 w2 Hsame. rewrite Hfile in Hsame. split.
  - unfold fetch_status. now rewrite Hsame.
  - unfold build_parts_db. now rewrite (entry_resumes Parts_Url w2 q m Hsame Hint).
Qed.

Lemma interrupted_run_resumes_witness :
  exists w',
    build_parts_db start_url two_pages signalled_world
      = Some (Done (Interrupted [JStr page2_url] meta_after_page1), w') /\
    status_file w'
      = Pickled (mkStatus None (Some meta_after_page1)
                          (Some [JStr page2_url])) /\
    forall (net2 : list reply) (w2 : world),
      status_file w2 = status_file w' ->
      fetch_status w2 = Done (Some [JStr page2_url], Some meta_after_page1, None) /\
      build_parts_db start_url net2 w2
        = crawl net2 [JStr page2_url] meta_after_page1 w2.
Proof.
  eapply (interrupted_run_resumes start_url two_pages signalled_world _
            [JStr start_url] [JStr page2_url] fresh_meta meta_after_page1).
  - reflexivity.
  - vm_compute. reflexivity.
  - discriminate.
Defined.

(** The interrupted run of the sample and the run after it: the second
    run requests the queued page and completes. *)
Example interrupted_then_resumed :
  exists w' w'',
    build_parts_db start_url two_pages signalled_world
      = Some (Done (Interrupted [JStr page2_url] meta_after_page1), w') /\
    requested w' = [JStr start_url] /\
    build_parts_db start_url (tl two_pages)
        (mkWorld (status_file w') (now w') (part_table w') None [])
      = Some (Done Completed, w'') /\
    requested w'' = [JStr page2_url].
Proof. do 2 eexists. vm_compute. repeat split; reflexivity. Qed.

(** ** A run over successful fetches *)


Lemma graceful_exit_unsignalled (w : world) :
  graceful_exit_in w = None -> graceful_exit w = (false, w).
Proof. unfold graceful_exit. now intros ->. Qed.





(** The sample run, evaluated: both pages requested in order, one row (the
    second payload carries the [id] of the first), the checkpoint finished
    at the time of the second pause. *)
Example clean_run_evaluated :
  build_parts_db start_url two_pages (idle_world Missing 0)
  = Some (Done Completed,
          mkWorld (Pickled (mkStatus (Some 40000000) None None)) 40000000
                  [mkPart 1 "4711" "ATMEGA328" "Atmel" "8-bit MCU"
                          "http://a/ds.pdf"]
                  None [JStr start_url; JStr page2_url]).
Proof. vm_compute. reflexivity. Qed.

(** * Further properties of the code *)

(** ** Record repository *)

Lemma store_part_grows (ap : aisler_part_t) (table : list Part) :
  exists added, snd (store_part ap table) = table ++ added.
Proof.
  unfold store_part.
  destruct (as_column (ap_aisler_id ap)) as [key |];
    [| now exists []; rewrite app_nil_r].
  destruct (query_first key table); [now exists []; rewrite app_nil_r |].
  destruct (as_column (ap_mpn ap)), (as_column (ap_manufacturer ap)),
    (as_column (ap_description ap)), (as_column (ap_datasheet ap));
    try (now exists []; rewrite app_nil_r).
  unfold add_and_commit.
  destruct (existsb _ table); [now exists []; rewrite app_nil_r |].
  now eexists [_].
Qed.

Lemma insert_part_grows (part : json) (table : list Part) :
  exists added, snd (insert_part part table) = table ++ added.
Proof.
  unfold insert_part. destruct (read_payload part);
    try (now exists []; rewrite app_nil_r).
  apply store_part_grows.
Qed.

Lemma insert_all_grows (parts : list json) :
  forall table, exists added, snd (insert_all parts table) = table ++ added.
Proof.
  induction parts as [| part parts IH]; intros table; cbn [insert_all].
  - now exists []; rewrite app_nil_r.
  - destruct (insert_part_grows part table) as (a1 & H1).
    destruct (insert_part part table) as [[[] | c | e] t1]; cbn [snd] in H1;
      subst t1; try (now exists a1).
    destruct (IH (table ++ a1)) as (a2 & H2).
    exists (a1 ++ a2). now rewrite H2, app_assoc.
Qed.

Lemma parse_and_insert_grows (parts : option json) (table : list Part) :
  exists added,
    snd (parse_and_insert_response_parts parts table) = table ++ added.
Proof.
  unfold parse_and_insert_response_parts.
  destruct (iterate parts); try (now exists []; rewrite app_nil_r).
  apply insert_all_grows.
Qed.

(** X1.  Whatever it is given and however it ends, the insertion keeps
    every row that was in the table, unchanged and in place, and at most
    appends rows after them: nothing is updated and nothing deleted. *)
Theorem parse_and_insert_only_appends (parts : option json) (table : list Part) :
  exists added,
    snd (parse_and_insert_response_parts parts table) = table ++ added.
Proof.
  unfold parse_and_insert_response_parts.
  destruct (iterate parts) as [l | c | e].
  - apply insert_all_grows.
  - exists []. cbn [snd]. now rewrite app_nil_r.
  - exists []. cbn [snd]. now rewrite app_nil_r.
Qed.

Lemma query_first_not_in (key : string) (table : list Part) :
  query_first key table = None -> ~ In key (map aisler_id table).
Proof.
  unfold query_first. induction table as [| row table IH]; simpl; [tauto |].
  destruct (String.eqb_spec (aisler_id row) key) as [-> | Hne];
    [discriminate |].
  intros Hq [Heq | Hin]; [congruence | exact (IH Hq Hin)].
Qed.

Lemma query_first_app (key : string) (table added : list Part) (row : Part) :
  query_first key table = Some row ->
  query_first key (table ++ added) = Some row.
Proof.
  unfold query_first. induction table as [| r table IH]; simpl;
    [discriminate |].
  destruct (String.eqb (aisler_id r) key); [easy | exact IH].
Qed.

Lemma query_first_new (key : string) (table : list Part) (row : Part) :
  query_first key table = None -> aisler_id row = key ->
  query_first key (table ++ [row]) = Some row.
Proof.
  unfold query_first. intros Hq Hk.
  induction table as [| r table IH]; simpl in *.
  - now rewrite Hk, String.eqb_refl.
  - destruct (String.eqb (aisler_id r) key); [discriminate | exact (IH Hq)].
Qed.

Lemma store_part_unique (ap : aisler_part_t) (table : list Part) :
  NoDup (map aisler_id table) ->
  NoDup (map aisler_id (snd (store_part ap table))).
Proof.
  intros Hnd. unfold store_part.
  destruct (as_column (ap_aisler_id ap)) as [key |]; [| exact Hnd].
  destruct (query_first key table) eqn:Hq; [exact Hnd |].
  destruct (as_column (ap_mpn ap)), (as_column (ap_manufacturer ap)),
    (as_column (ap_description ap)), (as_column (ap_datasheet ap));
    try exact Hnd.
  unfold add_and_commit. destruct (existsb _ table); [exact Hnd |].
  cbn [snd]. rewrite map_app. apply NoDup_app; [exact Hnd | |].
  - repeat constructor. simpl. tauto.
  - intros a Hin [<- | []]. exact (query_first_not_in _ _ Hq Hin).
Qed.

Lemma insert_all_unique (parts : list json) :
  forall table,
    NoDup (map aisler_id table) ->
    NoDup (map aisler_id (snd (insert_all parts table))).
Proof.
  induction parts as [| part parts IH]; intros table Hnd; cbn [insert_all];
    [exact Hnd |].
  assert (H1 : NoDup (map aisler_id (snd (insert_part part table)))).
  { unfold insert_part. destruct (read_payload part); try exact Hnd.
    now apply store_part_unique. }
  destruct (insert_part part table) as [[[] | c | e] t1]; cbn [snd] in *;
    try exact H1.
  now apply IH.
Qed.

(** X2.  The insertion keeps the key of the table: when no two rows share
    an [aisler_id] before, no two rows share one after, whatever the
    payloads are (repeated ids in one page included) and however the
    insertion ends. *)
Theorem parse_and_insert_keeps_ids_unique
        (parts : option json) (table : list Part) :
  NoDup (map aisler_id table) ->
  NoDup (map aisler_id (snd (parse_and_insert_response_parts parts table))).
Proof.
  intros Hnd. unfold parse_and_insert_response_parts.
  destruct (iterate parts); try exact Hnd.
  now apply insert_all_unique.
Qed.

Lemma parse_and_insert_keeps_ids_unique_witness :
  NoDup (map aisler_id
           (snd (parse_and_insert_response_parts
                   (Some (JArr [first_payload; second_payload]))
                   [atmega644]))).
Proof.
  apply (parse_and_insert_keeps_ids_unique
           (Some (JArr [first_payload; second_payload])) [atmega644]).
  repeat constructor. simpl. tauto.
Defined.



Lemma insert_part_known_key
      (part : json) (ap : aisler_part_t) (key : string) (row : Part)
      (table : list Part) :
  read_payload part = Done ap ->
  ap_aisler_id ap = JStr key ->
  query_first key table = Some row ->
  insert_part part table = (Done tt, table).
Proof.
  intros Hread Hkey Hq. unfold insert_part. rewrite Hread.
  apply (store_part_known_key ap key row); [| exact Hq].
  now rewrite Hkey.
Qed.

(** X4.  A payload whose [id] is already stored changes nothing, whatever
    its other fields hold (strings or not): the insertion answers [Done]
    and the table is the one it was given. *)
Theorem known_id_changes_nothing
        (part : json) (ap : aisler_part_t) (key : string) (row : Part)
        (table : list Part) :
  read_payload part = Done ap ->
  ap_aisler_id ap = JStr key ->
  query_first key table = Some row ->
  insert_part part table = (Done tt, table).
Proof.
  intros Hread Hkey Hq. unfold insert_part. rewrite Hread.
  unfold store_part. rewrite Hkey. cbn [as_column]. now rewrite Hq.
Qed.

Lemma known_id_changes_nothing_witness :
  insert_part
    (JObj [("id", JStr "a2");
           ("attributes",
            JObj [("mpn", JNull); ("manufacturer", JNum 7);
                  ("datasheet", JArr []); ("description", JBool true)])])
    [atmega328p; atmega644]
  = (Done tt, [atmega328p; atmega644]).
Proof.
  apply (known_id_changes_nothing _
           (mkAislerPart (JStr "a2") JNull (JNum 7) (JArr []) (JBool true))
           "a2" atmega644 [atmega328p; atmega644]); reflexivity.
Defined.

Lemma read_payload_id (part : json) (ap : aisler_part_t) :
  read_payload part = Done ap -> subscript part "id" = Done (ap_aisler_id ap).
Proof.
  unfold read_payload. intros H.
  apply bind_done in H as (i & Hi & H).
  repeat (apply bind_done in H as (? & _ & H)).
  injection H as <-. exact Hi.
Qed.

(** A payload the insertion accepted is one that reads, with a string
    [id] that the table holds afterwards. *)
Lemma insert_part_done_inv (part : json) (table table' : list Part) :
  insert_part part table = (Done tt, table') ->
  exists ap key row,
    read_payload part = Done ap /\ ap_aisler_id ap = JStr key /\
    query_first key table' = Some row.
Proof.
  unfold insert_part. destruct (read_payload part) as [ap | c | e] eqn:Hr;
    try discriminate.
  unfold store_part.
  destruct (ap_aisler_id ap) as [| | | key | |] eqn:Hk; cbn [as_column];
    try discriminate.
  destruct (query_first key table) as [row |] eqn:Hq.
  - intros [= <-]. now exists ap, key, row.
  - destruct (as_column (ap_mpn ap)) as [m |]; [| discriminate].
    destruct (as_column (ap_manufacturer ap)) as [f |]; [| discriminate].
    destruct (as_column (ap_description ap)) as [d |]; [| discriminate].
    destruct (as_column (ap_datasheet ap)) as [s |]; [| discriminate].
    unfold add_and_commit. cbn [new_row aisler_id].
    rewrite (query_first_none_existsb key table Hq).
    intros [= <-]. exists ap, key, (new_row table key m f d s).
    repeat split; try assumption. now apply query_first_new.
Qed.

Lemma insert_all_found (parts : list json) :
  forall table table',
    insert_all parts table = (Done tt, table') ->
    forall part key,
      In part parts -> subscript part "id" = Done (JStr key) ->
      exists row, query_first key table' = Some row.
Proof.
  induction parts as [| p parts IH]; intros table table' Hall part key Hin Hid;
    [destruct Hin |].
  cbn [insert_all] in Hall.
  destruct (insert_part p table) as [[[] | c | e] t1] eqn:Hp;
    try discriminate.
  destruct Hin as [<- | Hin].
  - destruct (insert_part_done_inv p table t1 Hp)
      as (ap & key' & row & Hr & Hk & Hq).
    rewrite (read_payload_id p ap Hr), Hk in Hid. injection Hid as ->.
    destruct (insert_all_grows parts t1) as (added & Hgrow).
    rewrite Hall in Hgrow. cbn [snd] in Hgrow. subst table'.
    exists row. now apply query_first_app.
  - eapply IH; eassumption.
Qed.

(** X5.  After a page has been inserted without failure, every [id] of
    the page is in the table: a lookup of it returns a row. *)
Theorem inserted_ids_are_found
        (parts : list json) (table table' : list Part)
        (part : json) (key : string) :
  parse_and_insert_response_parts (Some (JArr parts)) table
    = (Done tt, table') ->
  In part parts ->
  subscript part "id" = Done (JStr key) ->
  exists row, query_first key table' = Some row.
Proof.
  unfold parse_and_insert_response_parts. cbn [iterate].
  intros Hall Hin Hid. eapply insert_all_found; eassumption.
Qed.

Lemma inserted_ids_are_found_witness :
  exists row,
    query_first "4711"
      (snd (parse_and_insert_response_parts
              (Some (JArr [first_payload; second_payload])) [atmega644]))
    = Some row.
Proof.
  apply (inserted_ids_are_found [first_payload; second_payload] [atmega644]
           _ second_payload "4711").
  - reflexivity.
  - right. left. reflexivity.
  - reflexivity.
Defined.

Lemma insert_all_again (parts : list json) :
  forall table table',
    insert_all parts table = (Done tt, table') ->
    forall later, insert_all parts (table' ++ later) = (Done tt, table' ++ later).
Proof.
  induction parts as [| p parts IH]; intros table table' Hall later;
    [reflexivity |].
  cbn [insert_all] in *.
  destruct (insert_part p table) as [[[] | c | e] t1] eqn:Hp;
    try discriminate.
  destruct (insert_part_done_inv p table t1 Hp)
    as (ap & key & row & Hr & Hk & Hq).
  destruct (insert_all_grows parts t1) as (added & Hgrow).
  rewrite Hall in Hgrow. cbn [snd] in Hgrow.
  assert (Hfound : query_first key (table' ++ later) = Some row).
  { subst table'. rewrite <- app_assoc. now apply query_first_app. }
  rewrite (insert_part_known_key p ap key row _ Hr Hk Hfound).
  exact (IH t1 table' Hall later).
Qed.

(** X6.  Inserting a page a second time changes nothing: when a page has
    been inserted without failure, inserting the same page again into the
    resulting table answers [Done] and leaves the table as it is. *)
Theorem parse_and_insert_twice
        (parts : list json) (table table' : list Part) :
  parse_and_insert_response_parts (Some (JArr parts)) table
    = (Done tt, table') ->
  parse_and_insert_response_parts (Some (JArr parts)) table'
    = (Done tt, table').
Proof.
  unfold parse_and_insert_response_parts. cbn [iterate]. intros Hall.
  pose proof (insert_all_again parts table table' Hall []) as H.
  now rewrite app_nil_r in H.
Qed.

Lemma parse_and_insert_twice_witness :
  parse_and_insert_response_parts
    (Some (JArr [first_payload; payload "9" "NE555" "TI" "" "Timer"]))
    [mkPart 1 "4711" "ATMEGA328" "Atmel" "8-bit MCU" "http://a/ds.pdf";
     mkPart 2 "9" "NE555" "TI" "Timer" ""]
  = (Done tt,
     [mkPart 1 "4711" "ATMEGA328" "Atmel" "8-bit MCU" "http://a/ds.pdf";
      mkPart 2 "9" "NE555" "TI" "Timer" ""]).
Proof.
  apply (parse_and_insert_twice
           [first_payload; payload "9" "NE555" "TI" "" "Timer"] []).
  reflexivity.
Defined.

Lemma insert_all_app (l1 : list json) :
  forall l2 table t1,
    insert_all l1 table = (Done tt, t1) ->
    insert_all (l1 ++ l2) table = insert_all l2 t1.
Proof.
  induction l1 as [| p l1 IH]; intros l2 table t1 H; cbn [insert_all app] in *.
  - now injection H as <-.
  - destruct (insert_part p table) as [[[] | c | e] t0]; try discriminate.
    now apply IH.
Qed.

(** X7.  A payload that cannot be read stops the insertion at that
    payload: the payloads before it stay committed, the exception of the
    failed subscript is raised, and the payloads after it are not
    looked at. *)
Theorem bad_payload_stops_insertion
        (before after : list json) (bad : json) (e : exn)
        (table t1 : list Part) :
  parse_and_insert_response_parts (Some (JArr before)) table = (Done tt, t1) ->
  read_payload bad = Raise e ->
  parse_and_insert_response_parts (Some (JArr (before ++ bad :: after))) table
    = (Raise e, t1).
Proof.
  unfold parse_and_insert_response_parts. cbn [iterate]. intros Hb Hbad.
  rewrite (insert_all_app before (bad :: after) table t1 Hb).
  cbn [insert_all]. unfold insert_part. now rewrite Hbad.
Qed.

Lemma bad_payload_stops_insertion_witness :
  parse_and_insert_response_parts
    (Some (JArr ([first_payload] ++ JObj [("id", JStr "5")] :: [second_payload])))
    []
  = (Raise KeyError,
     [mkPart 1 "4711" "ATMEGA328" "Atmel" "8-bit MCU" "http://a/ds.pdf"]).
Proof.
  apply (bad_payload_stops_insertion [first_payload] [second_payload]
           (JObj [("id", JStr "5")]) KeyError []); reflexivity.
Defined.

(** ** One page of the crawl *)

Lemma graceful_exit_keeps (w : world) :
  status_file (snd (graceful_exit w)) = status_file w /\
  now (snd (graceful_exit w)) = now w /\
  part_table (snd (graceful_exit w)) = part_table w /\
  requested (snd (graceful_exit w)) = requested w.
Proof.
  unfold graceful_exit. destruct (graceful_exit_in w) as [[| n] |];
    repeat split; reflexivity.
Qed.

(** What [follow_links] returns when it returns: the rest of the queue
    followed by the next link of the reply, if it has one. *)
Lemma follow_links_done_inv url rest body q1 (code : Z) :
  follow_links url rest body = Done q1 ->
  q1 = rest ++ next_list (Reply code (Some body)).
Proof.
  unfold follow_links, next_list. intros H.
  apply bind_done in H as (present & Hk & H).
  destruct body as [| | | | | d]; try discriminate Hk.
  cbn [has_key] in Hk. injection Hk as <-. cbn [next_of].
  unfold dict_has in H. destruct (dict_get "links" d) as [lk |] eqn:El.
  - apply bind_done in H as (response_link & Hl & H).
    cbn [subscript] in Hl. rewrite El in Hl. injection Hl as <-.
    apply bind_done in H as (next_url & Hn & H).
    apply subscript_done in Hn as (l & -> & Hn). rewrite Hn.
    destruct next_url; try (injection H as <-; now rewrite ?app_nil_r);
      (destruct (py_eq url _); [discriminate | now injection H as <-]).
  - injection H as <-. now rewrite app_nil_r.
Qed.

Lemma read_page_done_queue url rest meta body m1 data q1 (code : Z) :
  read_page url rest meta body = Done (m1, data, q1) ->
  q1 = rest ++ next_list (Reply code (Some body)).
Proof.
  unfold read_page. intros H.
  apply bind_done in H as (m & _ & H).
  apply bind_done in H as (d & _ & H).
  apply bind_done in H as (q & Hq & H).
  injection H as _ _ <-. exact (follow_links_done_inv url rest body q code Hq).
Qed.

Lemma bind_exit {A B} (m : outcome A) (k : A -> outcome B) (c : Z) :
  bind m k = Exit c -> m = Exit c \/ exists a, m = Done a /\ k a = Exit c.
Proof. destruct m; cbn [bind]; [eauto | intros [= <-]; now left | discriminate]. Qed.

Lemma subscript_no_exit (x : json) (k : string) (c : Z) :
  subscript x k <> Exit c.
Proof. destruct x; cbn; try discriminate. destruct (dict_get k d); discriminate. Qed.

Lemma has_key_no_exit (x : json) (k : string) (c : Z) : has_key x k <> Exit c.
Proof. destruct x; discriminate. Qed.

(** The two exit codes of [read_page]: the two loop checks. *)
Lemma read_page_exit_codes url rest meta body (c : Z) :
  read_page url rest meta body = Exit c -> c = -10 \/ c = -6.
Proof.
  unfold read_page. intros H.
  apply bind_exit in H as [H | (m & _ & H)].
  - left. unfold merge_meta in H.
    apply bind_exit in H as [H | ([|] & _ & H)];
      [now apply has_key_no_exit in H | | discriminate].
    apply bind_exit in H as [H | (rm & _ & H)];
      [now apply subscript_no_exit in H |].
    apply bind_exit in H as [H | (l & _ & H)].
    { unfold meta_get in H. destruct (dict_get "offset" meta); discriminate. }
    apply bind_exit in H as [H | (o & _ & H)];
      [now apply subscript_no_exit in H |].
    apply bind_exit in H as [H | (stuck & _ & H)].
    { unfold ge in H. destruct (py_ge l o); discriminate. }
    destruct stuck; [now injection H as <- |].
    destruct rm; try discriminate.
    apply bind_exit in H as [H | (t & _ & H)]; [| discriminate].
    unfold meta_get in H. destruct (dict_get "total" _); discriminate.
  - apply bind_exit in H as [H | (d & _ & H)].
    { unfold read_data in H.
      apply bind_exit in H as [H | ([|] & _ & H)];
        [now apply has_key_no_exit in H | | discriminate].
      apply bind_exit in H as [H | (x & _ & H)];
        [now apply subscript_no_exit in H |].
      apply bind_exit in H as [H | (n & _ & H)]; [| discriminate].
      destruct x; discriminate. }
    apply bind_exit in H as [H | (q & _ & H)]; [| discriminate].
    right. unfold follow_links in H.
    apply bind_exit in H as [H | ([|] & _ & H)];
      [now apply has_key_no_exit in H | | discriminate].
    apply bind_exit in H as [H | (lk & _ & H)];
      [now apply subscript_no_exit in H |].
    apply bind_exit in H as [H | (nx & _ & H)];
      [now apply subscript_no_exit in H |].
    destruct nx; try discriminate;
      (destruct (py_eq url _); [now injection H as <- | discriminate]).
Qed.

(** X8.  When the insertion of a page fails, the run ends with
    [exit(-7)] only after the [finally] has written the checkpoint and
    paused: the checkpoint holds the queue without the URL of the failed
    page (the rest of the queue and the next link of the page), so a later
    run does not request that page again. *)
Theorem failed_insertion_drops_page
        (url : json) (rest : list json) (meta : dict) (r : reply)
        (w w' : world) :
  crawl_page url rest meta r w = (Exit (-7), w') ->
  exists meta',
    status_file w'
      = Pickled (mkStatus None (Some meta') (Some (rest ++ next_list r))) /\
    now w' = now w + sleep_time /\
    requested w' = requested w ++ [url].
Proof.
  unfold crawl_page. destruct r as [| code [body |]]; try discriminate.
  - destruct (Z.eqb_spec code 200) as [-> | Hne]; cbn [negb]; [| discriminate].
    destruct (read_page url rest meta body) as [[[m d] q] | c | e] eqn:Hread.
    + rewrite (read_page_done_queue _ _ _ _ _ _ _ 200 Hread).
      destruct (parse_and_insert_response_parts d (part_table (request url w)))
        as [[[] | c | e] table]; intros [= <-]; try discriminate;
        now exists m.
    + intros [= -> _].
      destruct (read_page_exit_codes _ _ _ _ _ Hread); discriminate.
    + discriminate.
  - destruct (negb (Z.eqb code 200)); discriminate.
Qed.

Lemma failed_insertion_drops_page_witness :
  exists meta',
    status_file
      (snd (crawl_page (JStr start_url) [JStr "https://api.example/other"]
                       fresh_meta (Reply 200 (Some broken_page))
                       (idle_world Missing 0)))
      = Pickled (mkStatus None (Some meta')
                   (Some ([JStr "https://api.example/other"] ++
                          next_list (Reply 200 (Some broken_page))))) /\
    now (snd (crawl_page (JStr start_url) [JStr "https://api.example/other"]
                         fresh_meta (Reply 200 (Some broken_page))
                         (idle_world Missing 0)))
      = now (idle_world Missing 0) + sleep_time /\
    requested
      (snd (crawl_page (JStr start_url) [JStr "https://api.example/other"]
                       fresh_meta (Reply 200 (Some broken_page))
                       (idle_world Missing 0)))
      = requested (idle_world Missing 0) ++ [JStr start_url].
Proof.
  apply (failed_insertion_drops_page (JStr start_url)
           [JStr "https://api.example/other"] fresh_meta
           (Reply 200 (Some broken_page)) (idle_world Missing 0)).
  vm_compute. reflexivity.
Defined.

(** X9.  Every failure of a page other than a failed insertion (transport
    exception, status other than 200, text that is not JSON, a loop check,
    a missing field) happens before anything is written: the checkpoint
    file, the Part table and the clock are as they were, and the URL has
    been requested. *)
Theorem early_failure_writes_nothing
        (url : json) (rest : list json) (meta : dict) (r : reply)
        (w w' : world) (o : outcome (list json * dict)) :
  crawl_page url rest meta r w = (o, w') ->
  aborted o = true ->
  o <> Exit (-7) ->
  status_file w' = status_file w /\
  part_table w' = part_table w /\
  now w' = now w /\
  requested w' = requested w ++ [url].
Proof.
  unfold crawl_page. intros H Hab Hne.
  destruct r as [| code [body |]].
  - injection H as <- <-. repeat split; reflexivity.
  - destruct (negb (Z.eqb code 200)).
    + injection H as <- <-. repeat split; reflexivity.
    + destruct (read_page url rest meta body) as [[[m d] q] | c | e].
      * destruct (parse_and_insert_response_parts d
                    (part_table (request url w))) as [[[] | c | e] table];
          injection H as <- <-; try discriminate; congruence.
      * injection H as <- <-. repeat split; reflexivity.
      * injection H as <- <-. repeat split; reflexivity.
  - destruct (negb (Z.eqb code 200)); injection H as <- <-;
      repeat split; reflexivity.
Qed.

Lemma early_failure_writes_nothing_witness :
  status_file (mkWorld Corrupt 5 [ne555] None [JStr start_url]) = Corrupt /\
  part_table (mkWorld Corrupt 5 [ne555] None [JStr start_url]) = [ne555] /\
  now (mkWorld Corrupt 5 [ne555] None [JStr start_url]) = 5 /\
  requested (mkWorld Corrupt 5 [ne555] None [JStr start_url])
    = [] ++ [JStr start_url].
Proof.
  apply (early_failure_writes_nothing (JStr start_url) [] fresh_meta
           (Reply 503 None) (mkWorld Corrupt 5 [ne555] None [])
           (mkWorld Corrupt 5 [ne555] None [JStr start_url]) (Exit (-5))).
  - reflexivity.
  - reflexivity.
  - discriminate.
Defined.

(** ** The loop as a whole *)

(** What one turn of the loop can do to the environment, however it
    ends. *)
Lemma crawl_page_effects url rest meta r (w w' : world) o :
  crawl_page url rest meta r w = (o, w') ->
  requested w' = requested w ++ [url] /\
  (exists added, part_table w' = part_table w ++ added) /\
  (status_file w' = status_file w \/ unfinished (status_file w')).
Proof.
  unfold crawl_page. intros H.
  assert (Hsame : forall o0, (o0, request url w) = (o, w') ->
            requested w' = requested w ++ [url] /\
            (exists added, part_table w' = part_table w ++ added) /\
            (status_file w' = status_file w \/ unfinished (status_file w'))).
  { intros o0 [= _ <-]. split; [reflexivity |].
    split; [exists []; cbn; now rewrite app_nil_r | now left]. }
  destruct r as [| code [body |]]; [eauto | |].
  - destruct (negb (Z.eqb code 200)); [eauto |].
    destruct (read_page url rest meta body) as [[[m d] q] | c | e]; eauto.
    destruct (parse_and_insert_grows d (part_table (request url w)))
      as (added & Hgrow).
    destruct (parse_and_insert_response_parts d (part_table (request url w)))
      as [ins table]. cbn [snd] in Hgrow.
    assert (Hw : w' = sleep (save_status (Some q) (Some m) false
                               (set_part_table table (request url w)))).
    { destruct ins; now injection H as _ <-. }
    subst w'. split; [reflexivity |].
    split; [exists added; exact Hgrow | right; reflexivity].
  - destruct (negb (Z.eqb code 200)); eauto.
Qed.


(** X10.  The queue is first in, first out: whatever the replies and
    however the loop ends, the URLs it has requested are, in order, a
    prefix of the starting queue followed by the next links of the
    replies, one request per reply at most. *)
Theorem requests_follow_queue_order (net : list reply) :
  forall q m (w w' : world) o,
    crawl_loop net q m w = Some (o, w') ->
    exists k, (k <= List.length net)%nat /\
              requested w' = requested w ++ firstn k (q ++ nexts net).
Proof.
  induction net as [| r net IH]; intros q m w w' o Hloop;
    destruct q as [| url rest]; cbn [crawl_loop] in Hloop.
  - injection Hloop as _ <-. exists 0%nat. cbn. now rewrite app_nil_r.
  - destruct (graceful_exit_keeps w) as (_ & _ & _ & Hreq).
    destruct (graceful_exit w) as [[|] w1]; [| discriminate].
    injection Hloop as _ <-. exists 0%nat. cbn in *. now rewrite app_nil_r.
  - injection Hloop as _ <-. exists 0%nat. split; [lia |].
    cbn. now rewrite app_nil_r.
  - destruct (graceful_exit_keeps w) as (_ & _ & _ & Hreq).
    destruct (graceful_exit w) as [[|] w1]; cbn [snd] in Hreq.
    + injection Hloop as _ <-. exists 0%nat. split; [lia |].
      cbn. now rewrite app_nil_r.
    + destruct (crawl_page url rest m r w1) as [o1 w2] eqn:Hpage.
      destruct (crawl_page_effects _ _ _ _ _ _ _ Hpage) as (Hreq2 & _ & _).
      destruct o1 as [[q1 m1] | c | e].
      * destruct (crawl_page_done_inv _ _ _ _ _ _ _ _ Hpage)
          as (body & data & table & -> & Hread & _).
        rewrite (read_page_done_queue _ _ _ _ _ _ _ 200 Hread) in Hloop.
        destruct (IH _ _ _ _ _ Hloop) as (k & Hk & Hfifo).
        exists (S k). split; [cbn; lia |].
        rewrite Hfifo, Hreq2, Hreq. cbn [app nexts flat_map firstn].
        fold (nexts net). now rewrite <- !app_assoc.
      * injection Hloop as _ <-. exists 1%nat. split; [cbn; lia |].
        now rewrite Hreq2, Hreq.
      * injection Hloop as _ <-. exists 1%nat. split; [cbn; lia |].
        now rewrite Hreq2, Hreq.
Qed.

Lemma requests_follow_queue_order_witness :
  exists k, (k <= List.length two_pages)%nat /\
            requested (mkWorld (Pickled (mkStatus None
                                 (Some [("total", JNum 120); ("offset", JNum 50);
                                        ("limit", JNum 50)])
                                 (Some [])))
                               40000000
                               [mkPart 1 "4711" "ATMEGA328" "Atmel" "8-bit MCU"
                                       "http://a/ds.pdf"]
                               None [JStr start_url; JStr page2_url])
            = requested (idle_world Missing 0) ++
              firstn k ([JStr start_url] ++ nexts two_pages).
Proof.
  apply (requests_follow_queue_order two_pages [JStr start_url] fresh_meta
           (idle_world Missing 0) _
           (Done ([], [("total", JNum 120); ("offset", JNum 50);
                       ("limit", JNum 50)]))).
  vm_compute. reflexivity.
Defined.

Lemma crawl_loop_effects (net : list reply) :
  forall q m (w w' : world) o,
    crawl_loop net q m w = Some (o, w') ->
    (exists added, part_table w' = part_table w ++ added) /\
    (status_file w' = status_file w \/ unfinished (status_file w')).
Proof.
  assert (Hnil : forall w : world,
             (exists added, part_table w = part_table w ++ added) /\
             (status_file w = status_file w \/ unfinished (status_file w))).
  { intros w. split; [exists []; now rewrite app_nil_r | now left]. }
  induction net as [| r net IH]; intros q m w w' o Hloop;
    destruct q as [| url rest]; cbn [crawl_loop] in Hloop.
  - injection Hloop as _ <-. apply Hnil.
  - destruct (graceful_exit_keeps w) as (Hf & _ & Ht & _).
    destruct (graceful_exit w) as [[|] w1]; [| discriminate].
    injection Hloop as _ <-. cbn [snd] in *. rewrite Hf, Ht.
    split; [exists []; now rewrite app_nil_r | now left].
  - injection Hloop as _ <-. apply Hnil.
  - destruct (graceful_exit_keeps w) as (Hf & _ & Ht & _).
    destruct (graceful_exit w) as [[|] w1]; cbn [snd] in *.
    + injection Hloop as _ <-. rewrite Hf, Ht.
      split; [exists []; now rewrite app_nil_r | now left].
    + destruct (crawl_page url rest m r w1) as [o1 w2] eqn:Hpage.
      destruct (crawl_page_effects _ _ _ _ _ _ _ Hpage)
        as (_ & (a1 & Ha1) & Hs1).
      rewrite Hf in Hs1. rewrite Ht in Ha1.
      destruct o1 as [[q1 m1] | c | e];
        try (injection Hloop as _ <-; split; [now exists a1 | exact Hs1]).
      destruct (IH _ _ _ _ _ Hloop) as ((a2 & Ha2) & Hs2).
      split.
      * exists (a1 ++ a2). now rewrite Ha2, Ha1, app_assoc.
      * destruct Hs2 as [Hs2 | Hs2]; [rewrite Hs2; exact Hs1 | now right].
Qed.

(** X11.  A run of the crawler never removes or changes a stored part:
    however it ends, the Part table after it is the table before it
    followed by the rows the run added. *)
Theorem crawl_only_appends_parts
        (Parts_Url : string) (net : list reply) (w w' : world)
        (o : outcome run_end) :
  build_parts_db Parts_Url net w = Some (o, w') ->
  exists added, part_table w' = part_table w ++ added.
Proof.
  unfold build_parts_db, crawl. intros H.
  assert (Hnil : exists added, part_table w = part_table w ++ added)
    by (exists []; now rewrite app_nil_r).
  destruct (entry Parts_Url w) as [[[q0 m0] |] | c | e];
    try (injection H as _ <-; exact Hnil).
  destruct (crawl_loop net q0 m0 w) as [[o1 w1] |] eqn:Hloop; [| discriminate].
  destruct (crawl_loop_effects _ _ _ _ _ _ Hloop) as (Hgrow & _).
  destruct o1 as [[q1 m1] | c | e]; try (injection H as _ <-; exact Hgrow).
  unfold finish in H. destruct (graceful_exit_keeps w1) as (_ & _ & Ht & _).
  destruct (graceful_exit w1) as [[|] w2]; cbn [negb snd] in *;
    injection H as _ <-; cbn [save_status set_status_file part_table];
    now rewrite Ht.
Qed.

Lemma crawl_only_appends_parts_witness :
  exists added,
    part_table (mkWorld (Pickled (mkStatus (Some 40000000) None None)) 40000000
                        [ne555;
                         mkPart 2 "4711" "ATMEGA328" "Atmel" "8-bit MCU"
                                "http://a/ds.pdf"]
                        None [JStr start_url; JStr page2_url])
    = part_table (mkWorld Missing 0 [ne555] None []) ++ added.
Proof.
  apply (crawl_only_appends_parts start_url two_pages
           (mkWorld Missing 0 [ne555] None []) _ (Done Completed)).
  vm_compute. reflexivity.
Defined.

Lemma build_checkpoint_cases
      (Parts_Url : string) (net : list reply) (w w' : world)
      (o : outcome run_end) :
  build_parts_db Parts_Url net w = Some (o, w') ->
  match o with
  | Done Completed =>
      status_file w' = Pickled (mkStatus (Some (now w')) None None)
  | _ => status_file w' = status_file w \/ unfinished (status_file w')
  end.
Proof.
  unfold build_parts_db, crawl. intros H.
  destruct (entry Parts_Url w) as [[[q0 m0] |] | c | e];
    try (injection H as <- <-; now left).
  destruct (crawl_loop net q0 m0 w) as [[o1 w1] |] eqn:Hloop; [| discriminate].
  destruct (crawl_loop_effects _ _ _ _ _ _ Hloop) as (_ & Hs).
  destruct o1 as [[q1 m1] | c | e]; try (injection H as <- <-; exact Hs).
  unfold finish in H.
  destruct (graceful_exit w1) as [[|] w2]; cbn [negb] in *;
    injection H as <- <-; [now right | reflexivity].
Qed.

(** X12.  Only a run that completes marks the crawl as finished.  A run
    that returns as Completed leaves a checkpoint stamped with the time of
    its end; every other run (early return, interruption, exit, exception)
    leaves the checkpoint file as it found it or leaves a checkpoint
    without a finish time. *)
Theorem finished_only_when_completed
        (Parts_Url : string) (net : list reply) (w w' : world)
        (o : outcome run_end) :
  build_parts_db Parts_Url net w = Some (o, w') ->
  match o with
  | Done Completed =>
      status_file w' = Pickled (mkStatus (Some (now w')) None None)
  | _ => status_file w' = status_file w \/ unfinished (status_file w')
  end.
Proof.
  unfold build_parts_db, crawl. intros H.
  destruct (entry Parts_Url w) as [[[q0 m0] |] | c | e];
    try (injection H as <- <-; now left).
  destruct (crawl_loop net q0 m0 w) as [[o1 w1] |] eqn:Hloop; [| discriminate].
  destruct (crawl_loop_effects _ _ _ _ _ _ Hloop) as (_ & Hs).
  destruct o1 as [[q1 m1] | c | e]; try (injection H as <- <-; exact Hs).
  unfold finish in H.
  destruct (graceful_exit w1) as [[|] w2]; cbn [negb] in *;
    injection H as <- <-; [now right | reflexivity].
Qed.

Lemma finished_only_when_completed_witness :
  status_file (mkWorld (Pickled (mkStatus None (Some meta_after_page1)
                                          (Some [JStr page2_url])))
                       20000000
                       [mkPart 1 "4711" "ATMEGA328" "Atmel" "8-bit MCU"
                               "http://a/ds.pdf"]
                       (Some 0%nat) [JStr start_url])
    = status_file signalled_world \/
  unfinished
    (status_file (mkWorld (Pickled (mkStatus None (Some meta_after_page1)
                                             (Some [JStr page2_url])))
                          20000000
                          [mkPart 1 "4711" "ATMEGA328" "Atmel" "8-bit MCU"
                                  "http://a/ds.pdf"]
                          (Some 0%nat) [JStr start_url])).
Proof.
  apply (finished_only_when_completed start_url two_pages signalled_world _
           (Done (Interrupted [JStr page2_url] meta_after_page1))).
  vm_compute. reflexivity.
Defined.

Lemma ge_int_value (a b : json) (r : bool) (x : Z) :
  ge a b = Done r -> as_int a = Some x ->
  exists y, as_int b = Some y /\ r = Z.geb x y.
Proof.
  unfold ge. intros Hge Ha.
  destruct a as [| [|] | z | s | l | d]; try discriminate Ha;
    cbn [py_ge] in Hge; rewrite Ha in Hge;
    (destruct (as_int b) as [y |]; [| discriminate]);
    injection Hge as <-; now exists y.
Qed.

(** The offset check of line 271 on integers: the merge goes through only
    for a strictly greater offset, which becomes the accumulator's. *)
Lemma merge_meta_offset (meta meta' : dict) (body : json) (x : Z) :
  merge_meta meta body = Done meta' ->
  offset_in meta = Some x ->
  exists y, offset_in meta' = Some y /\ x <= y /\
            (has_key body "meta" = Done true -> x < y).
Proof.
  unfold merge_meta, offset_in. intros Hm Hx.
  apply bind_done in Hm as ([|] & Hk & Hm).
  - apply bind_done in Hm as (response_meta & _ & Hm).
    apply bind_done in Hm as (last & Hlast & Hm).
    apply bind_done in Hm as (offset & Hoff & Hm).
    apply bind_done in Hm as (stuck & Hge & Hm).
    destruct stuck; [discriminate |].
    destruct response_meta as [| | | | | d]; try discriminate.
    apply bind_done in Hm as (total & _ & Hm). injection Hm as <-.
    unfold meta_get in Hlast.
    destruct (dict_get "offset" meta) as [v |]; [| discriminate].
    injection Hlast as <-.
    destruct (ge_int_value v offset false x Hge Hx) as (y & Hy & Hcmp).
    exists y. rewrite dict_get_update.
    apply subscript_done in Hoff as (d0 & [= <-] & ->).
    symmetry in Hcmp. rewrite Z.geb_leb in Hcmp. apply Z.leb_gt in Hcmp.
    repeat split; [exact Hy | lia | intros _; exact Hcmp].
  - injection Hm as <-. exists x. rewrite Hk.
    repeat split; [exact Hx | lia | discriminate].
Qed.


(** X13.  The offset recorded in the accumulator never goes back: when
    the loop returns, by an empty queue or by the stop flag, the
    accumulator holds an integer offset at least as great as the one it
    started with. *)
Theorem accumulator_offset_never_decreases (net : list reply) :
  forall q m (w : world) q' m' w' (x : Z),
    crawl_loop net q m w = Some (Done (q', m'), w') ->
    offset_in m = Some x ->
    exists y, offset_in m' = Some y /\ x <= y.
Proof.
  induction net as [| r net IH]; intros q m w q' m' w' x Hloop Hx;
    destruct q as [| url rest]; cbn [crawl_loop] in Hloop.
  - injection Hloop as _ <- _. exists x. split; [exact Hx | lia].
  - destruct (graceful_exit w) as [[|] w1]; [| discriminate].
    injection Hloop as _ <- _. exists x. split; [exact Hx | lia].
  - injection Hloop as _ <- _. exists x. split; [exact Hx | lia].
  - destruct (graceful_exit w) as [[|] w1].
    + injection Hloop as _ <- _. exists x. split; [exact Hx | lia].
    + destruct (crawl_page url rest m r w1) as [[[q1 m1] | c | e] w2] eqn:Hpage;
        try discriminate.
      destruct (crawl_page_done_inv _ _ _ _ _ _ _ _ Hpage)
        as (body & data & table & _ & Hread & _).
      unfold read_page in Hread.
      apply bind_done in Hread as (mm & Hm & Hread).
      apply bind_done in Hread as (dd & _ & Hread).
      apply bind_done in Hread as (qq & _ & Hread).
      injection Hread as <- _ _.
      destruct (merge_meta_offset m mm body x Hm Hx) as (y & Hy & Hxy & _).
      destruct (IH _ _ _ _ _ _ y Hloop Hy) as (z & Hz & Hyz).
      exists z. split; [exact Hz | lia].
Qed.

Lemma accumulator_offset_never_decreases_witness :
  exists y,
    offset_in [("total", JNum 120); ("offset", JNum 50); ("limit", JNum 50)]
      = Some y /\ -1 <= y.
Proof.
  apply (accumulator_offset_never_decreases two_pages [JStr start_url]
           fresh_meta (idle_world Missing 0) [] _
           (mkWorld (Pickled (mkStatus None
                       (Some [("total", JNum 120); ("offset", JNum 50);
                              ("limit", JNum 50)])
                       (Some [])))
                    40000000
                    [mkPart 1 "4711" "ATMEGA328" "Atmel" "8-bit MCU"
                            "http://a/ds.pdf"]
                    None [JStr start_url; JStr page2_url]) (-1)).
  - vm_compute. reflexivity.
  - reflexivity.
Defined.

(** X14.  A page with [meta] is merged only when its offset is strictly
    greater than the accumulator's, and the merge takes over every field
    the page sends and keeps the others: after it the accumulator maps a
    key to the page's value if the page has the key, to its old value
    otherwise. *)
Theorem merge_takes_page_fields
        (meta meta' md : dict) (body : dict) (x : Z) :
  dict_get "meta" body = Some (JObj md) ->
  offset_in meta = Some x ->
  merge_meta meta (JObj body) = Done meta' ->
  (exists y, offset_in md = Some y /\ x < y) /\
  forall k, dict_get k meta'
            = match dict_get k md with
              | Some v => Some v
              | None => dict_get k meta
              end.
Proof.
  intros Hmd Hx Hm.
  destruct (merge_meta_offset meta meta' (JObj body) x Hm Hx)
    as (y & Hy & _ & Hlt).
  specialize (Hlt (has_key_present body "meta" _ Hmd)).
  unfold merge_meta in Hm.
  rewrite (has_key_present body "meta" _ Hmd) in Hm. cbn [bind] in Hm.
  rewrite (subscript_present body "meta" _ Hmd) in Hm. cbn [bind] in Hm.
  apply bind_done in Hm as (last & _ & Hm).
  apply bind_done in Hm as (offset & Hoff & Hm).
  apply bind_done in Hm as (stuck & _ & Hm).
  destruct stuck; [discriminate |].
  apply bind_done in Hm as (total & _ & Hm). injection Hm as <-.
  split.
  - exists y. split; [| exact Hlt]. unfold offset_in in *.
    rewrite dict_get_update in Hy.
    apply subscript_done in Hoff as (d0 & [= <-] & Hoff).
    now rewrite Hoff in *.
  - intros k. apply dict_get_update.
Qed.

Lemma merge_takes_page_fields_witness :
  (exists y, offset_in [("offset", JNum 50); ("total", JNum 120)] = Some y /\
             0 < y) /\
  forall k,
    dict_get k [("total", JNum 120); ("offset", JNum 50); ("limit", JNum 50)]
    = match dict_get k [("offset", JNum 50); ("total", JNum 120)] with
      | Some v => Some v
      | None => dict_get k meta_after_page1
      end.
Proof.
  apply (merge_takes_page_fields meta_after_page1 _
           [("offset", JNum 50); ("total", JNum 120)]
           [("data", JArr []);
            ("meta", JObj [("offset", JNum 50); ("total", JNum 120)])] 0);
    reflexivity.
Defined.


(** X15.  The loop pauses once for every page it has processed: when it
    returns, by an empty queue or by the stop flag, it has slept twenty
    seconds for each request it made. *)
Theorem one_pause_per_request (net : list reply) :
  forall q m (w : world) q' m' w',
    crawl_loop net q m w = Some (Done (q', m'), w') ->
    exists n : nat,
      List.length (requested w') = (List.length (requested w) + n)%nat /\
      now w' = now w + sleep_time * Z.of_nat n.
Proof.
  assert (Hzero : forall w1 w2 : world,
             requested w2 = requested w1 -> now w2 = now w1 ->
             exists n : nat,
               List.length (requested w2)
                 = (List.length (requested w1) + n)%nat /\
               now w2 = now w1 + sleep_time * Z.of_nat n).
  { intros w1 w2 Hr Hn. exists 0%nat. rewrite Hr, Hn. split; lia. }
  induction net as [| r net IH]; intros q m w q' m' w' Hloop;
    destruct q as [| url rest]; cbn [crawl_loop] in Hloop.
  - injection Hloop as _ _ <-. now apply Hzero.
  - destruct (graceful_exit_keeps w) as (_ & Hn & _ & Hr).
    destruct (graceful_exit w) as [[|] w1]; [| discriminate].
    injection Hloop as _ _ <-. now apply Hzero.
  - injection Hloop as _ _ <-. now apply Hzero.
  - destruct (graceful_exit_keeps w) as (_ & Hn & _ & Hr).
    destruct (graceful_exit w) as [[|] w1]; cbn [snd] in *.
    + injection Hloop as _ _ <-. now apply Hzero.
    + destruct (crawl_page url rest m r w1) as [[[q1 m1] | c | e] w2] eqn:Hpage;
        try discriminate.
      destruct (crawl_page_done_inv _ _ _ _ _ _ _ _ Hpage)
        as (body & data & table & _ & _ & ->).
      destruct (IH _ _ _ _ _ _ Hloop) as (n & Hlen & Hnow).
      exists (S n). rewrite Hlen, Hnow.
      cbn [sleep save_status set_status_file set_part_table request
           requested now].
      rewrite Hr, Hn, length_app. cbn [List.length]. split; lia.
Qed.

Lemma one_pause_per_request_witness :
  exists n : nat,
    List.length [JStr start_url; JStr page2_url]
      = (List.length (requested (idle_world Missing 0)) + n)%nat /\
    40000000 = now (idle_world Missing 0) + sleep_time * Z.of_nat n.
Proof.
  apply (one_pause_per_request two_pages [JStr start_url] fresh_meta
           (idle_world Missing 0) []
           [("total", JNum 120); ("offset", JNum 50); ("limit", JNum 50)]
           (mkWorld (Pickled (mkStatus None
                       (Some [("total", JNum 120); ("offset", JNum 50);
                              ("limit", JNum 50)])
                       (Some [])))
                    40000000
                    [mkPart 1 "4711" "ATMEGA328" "Atmel" "8-bit MCU"
                            "http://a/ds.pdf"]
                    None [JStr start_url; JStr page2_url])).
  vm_compute. reflexivity.
Defined.

(** ** How a run starts *)

(** X16.  Once a full week has passed since the finish time of the
    checkpoint (the week itself included), a run crawls again: it starts
    from a fresh accumulator, whatever accumulator the file holds, and
    from the queue of the file if it holds one, from the configured start
    URL otherwise. *)
Theorem crawl_again_after_one_week
        (Parts_Url : string) (net : list reply) (w : world) (t : Z)
        (meta : option dict) (next_urls : option (list json)) :
  status_file w = Pickled (mkStatus (Some t) meta next_urls) ->
  t + one_week <= now w ->
  build_parts_db Parts_Url net w
  = crawl net
          match next_urls with Some q => q | None => [JStr Parts_Url] end
          fresh_meta w.
Proof.
  intros Hfile Hnow. unfold build_parts_db, entry, fetch_status.
  rewrite Hfile. cbn [bind sd_next_urls sd_meta sd_finished].
  destruct (Z.gtb_spec (t + one_week) (now w)) as [Hgt | _]; [lia |].
  reflexivity.
Qed.

Lemma crawl_again_after_one_week_witness :
  build_parts_db start_url two_pages
    (mkWorld (Pickled (mkStatus (Some 1000) None None))
             (1000 + 604800000000) [] None [])
  = crawl two_pages [JStr start_url] fresh_meta
      (mkWorld (Pickled (mkStatus (Some 1000) None None))
               (1000 + 604800000000) [] None []).
Proof.
  apply (crawl_again_after_one_week start_url two_pages
           (mkWorld (Pickled (mkStatus (Some 1000) None None))
                    (1000 + 604800000000) [] None [])
           1000 None None).
  - reflexivity.
  - vm_compute. discriminate.
Defined.

(** A missing checkpoint file and one that does not unpickle start
    the same run: the crawl from the configured start URL with the
    accumulator at -1. *)
Lemma no_checkpoint_starts_from_scratch
        (Parts_Url : string) (net : list reply) (w : world) :
  status_file w = Missing \/ status_file w = Corrupt ->
  build_parts_db Parts_Url net w = crawl net [JStr Parts_Url] fresh_meta w.
Proof.
  intros H. unfold build_parts_db, entry.
  now rewrite (fetch_status_absent w H).
Qed.

(** X17.  A stop signal that is already set when the loop first looks at
    it ends the run before any request: the run is Interrupted, and the
    checkpoint it writes holds the whole starting queue and the starting
    accumulator, with no finish time. *)
Theorem stop_before_first_request
        (Parts_Url : string) (net : list reply) (w : world)
        (q : list json) (m : dict) :
  entry Parts_Url w = Done (Some (q, m)) ->
  q <> [] ->
  graceful_exit_in w = Some 0%nat ->
  build_parts_db Parts_Url net w
  = Some (Done (Interrupted q m), save_status (Some q) (Some m) false w) /\
  requested (save_status (Some q) (Some m) false w) = requested w.
Proof.
  intros Hentry Hne Hflag. split; [| reflexivity].
  unfold build_parts_db. rewrite Hentry. unfold crawl.
  destruct q as [| url rest]; [congruence |].
  assert (Hloop : forall net0, crawl_loop net0 (url :: rest) m w
                               = Some (Done (url :: rest, m), w)).
  { intros [| r net0]; cbn [crawl_loop]; unfold graceful_exit;
      now rewrite Hflag. }
  rewrite Hloop. unfold finish, graceful_exit. now rewrite Hflag.
Qed.

Lemma stop_before_first_request_witness :
  build_parts_db start_url two_pages (mkWorld Missing 0 [] (Some 0%nat) [])
  = Some (Done (Interrupted [JStr start_url] fresh_meta),
          save_status (Some [JStr start_url]) (Some fresh_meta) false
                      (mkWorld Missing 0 [] (Some 0%nat) [])) /\
  requested (save_status (Some [JStr start_url]) (Some fresh_meta) false
                         (mkWorld Missing 0 [] (Some 0%nat) []))
  = requested (mkWorld Missing 0 [] (Some 0%nat) []).
Proof.
  apply (stop_before_first_request start_url two_pages
           (mkWorld Missing 0 [] (Some 0%nat) []) [JStr start_url] fresh_meta).
  - reflexivity.
  - discriminate.
  - reflexivity.
Defined.

(** X18.  A checkpoint with an empty queue and no finish time (what a
    signal during the last page leaves) makes the next run complete at
    once: with no signal it makes no request, inserts nothing, and writes
    the finished checkpoint stamped with the current time. *)
Theorem empty_queue_checkpoint_completes
        (Parts_Url : string) (net : list reply) (w : world) (m : dict) :
  status_file w = Pickled (mkStatus None (Some m) (Some [])) ->
  int_offset m ->
  graceful_exit_in w = None ->
  build_parts_db Parts_Url net w
  = Some (Done Completed,
          mkWorld (Pickled (mkStatus (Some (now w)) None None)) (now w)
                  (part_table w) None (requested w)).
Proof.
  intros Hfile Hint Hflag. unfold build_parts_db.
  rewrite (entry_resumes Parts_Url w [] m Hfile Hint).
  unfold crawl. destruct net; cbn [crawl_loop]; unfold finish;
    rewrite (graceful_exit_unsignalled w Hflag); cbn [negb];
    unfold save_status, set_status_file; now rewrite Hflag.
Qed.

Lemma empty_queue_checkpoint_completes_witness :
  build_parts_db start_url two_pages
    (mkWorld (Pickled (mkStatus None (Some meta_after_page1) (Some [])))
             77 [ne555] None [])
  = Some (Done Completed,
          mkWorld (Pickled (mkStatus (Some 77) None None)) 77 [ne555] None []).
Proof.
  apply (empty_queue_checkpoint_completes start_url two_pages
           (mkWorld (Pickled (mkStatus None (Some meta_after_page1) (Some [])))
                    77 [ne555] None [])
           meta_after_page1).
  - reflexivity.
  - exists (JNum 0), 0. split; reflexivity.
  - reflexivity.
Defined.

(** X19.  After a run that completed, a run started less than one week
    after its end does nothing: it finds the checkpoint the first run
    left, makes no request and writes nothing. *)
Theorem completed_run_then_cooldown
        (Parts_Url : string) (net net2 : list reply) (w w' w2 : world) :
  build_parts_db Parts_Url net w = Some (Done Completed, w') ->
  status_file w2 = status_file w' ->
  now w2 < now w' + one_week ->
  build_parts_db Parts_Url net2 w2 = Some (Done NoOp, w2).
Proof.
  intros Hrun Hfile Hnow.
  pose proof (build_checkpoint_cases _ _ _ _ _ Hrun) as Hdone.
  cbn in Hdone. rewrite Hdone in Hfile.
  unfold build_parts_db, entry, fetch_status. rewrite Hfile.
  cbn [bind sd_next_urls sd_meta sd_finished].
  destruct (Z.gtb_spec (now w' + one_week) (now w2)) as [_ | Hle]; [| lia].
  reflexivity.
Qed.

Lemma completed_run_then_cooldown_witness :
  build_parts_db start_url two_pages
    (mkWorld (Pickled (mkStatus (Some 40000000) None None))
             (40000000 + 86400000000)
             [mkPart 1 "4711" "ATMEGA328" "Atmel" "8-bit MCU" "http://a/ds.pdf"]
             None [])
  = Some (Done NoOp,
          mkWorld (Pickled (mkStatus (Some 40000000) None None))
                  (40000000 + 86400000000)
                  [mkPart 1 "4711" "ATMEGA328" "Atmel" "8-bit MCU"
                          "http://a/ds.pdf"]
                  None []).
Proof.
  apply (completed_run_then_cooldown start_url two_pages two_pages
           (idle_world Missing 0)
           (mkWorld (Pickled (mkStatus (Some 40000000) None None)) 40000000
                    [mkPart 1 "4711" "ATMEGA328" "Atmel" "8-bit MCU"
                            "http://a/ds.pdf"]
                    None [JStr start_url; JStr page2_url])).
  - vm_compute. reflexivity.
  - reflexivity.
  - vm_compute. reflexivity.
Defined.

(** ** Matching and validation *)

Lemma lev_same (s : list ascii) : lev s s = 0%nat.
Proof.
  induction s as [| a s IH]; [reflexivity |].
  cbn [lev]. rewrite Ascii.eqb_refl, IH. apply Nat.min_0_r.
Qed.

Lemma lev_zero (s : list ascii) : forall t, lev s t = 0%nat -> s = t.
Proof.
  induction s as [| a s IH]; intros t H.
  - cbn [lev] in H. destruct t; [reflexivity | discriminate].
  - destruct t as [| b t]; [discriminate |].
    cbn [lev] in H.
    assert (Hd : ((if Ascii.eqb a b then 0 else 1) + lev s t = 0)%nat) by lia.
    destruct (Ascii.eqb_spec a b) as [-> | Hne]; [| lia].
    f_equal. apply IH. lia.
Qed.

Lemma levenshtein_distance_zero (s t : string) :
  levenshtein_distance s t = 0%nat <-> s = t.
Proof.
  unfold levenshtein_distance. split.
  - intros H. apply lev_zero in H.
    rewrite <- (string_of_list_ascii_of_string s),
            <- (string_of_list_ascii_of_string t).
    now rewrite H.
  - intros ->. apply lev_same.
Qed.

(** X20.  An exact match wins: when some candidate's [mpn] is the query
    value itself, [match_parts] returns a candidate whose [mpn] is the
    value, and it is the first such candidate of the list. *)
Theorem exact_match_wins
        (v : string) (related_parts : list Part) (c : Part) :
  In c related_parts ->
  mpn c = v ->
  exists i p,
    match_parts v related_parts = Some p /\
    nth_error related_parts i = Some p /\
    mpn p = v /\
    forall j q, (j < i)%nat -> nth_error related_parts j = Some q ->
                mpn q <> v.
Proof.
  intros Hin Hc.
  assert (Hne : related_parts <> []) by (intros ->; destruct Hin).
  destruct (match_loop_invariant levenshtein_distance v related_parts Hne)
    as (i & p & Hrun & Hi & Hle & Hlt).
  destruct (In_nth_error _ _ Hin) as (k & Hk).
  assert (Hp : levenshtein_distance v (mpn p) = 0%nat).
  { specialize (Hle k c Hk). rewrite Hc in Hle.
    rewrite (proj2 (levenshtein_distance_zero v v) eq_refl) in Hle. lia. }
  exists i, p. split.
  { unfold match_parts, match_parts_with. now rewrite Hrun. }
  split; [exact Hi |]. split.
  { symmetry. now apply levenshtein_distance_zero. }
  intros j q Hj Hq Heq. specialize (Hlt j q Hj Hq).
  rewrite Heq, (proj2 (levenshtein_distance_zero v v) eq_refl) in Hlt. lia.
Qed.

Lemma exact_match_wins_witness :
  exists i p,
    match_parts "NE556" [ne555; ne556; atmega644] = Some p /\
    nth_error [ne555; ne556; atmega644] i = Some p /\
    mpn p = "NE556" /\
    forall j q, (j < i)%nat ->
                nth_error [ne555; ne556; atmega644] j = Some q ->
                mpn q <> "NE556".
Proof.
  apply (exact_match_wins "NE556" [ne555; ne556; atmega644] ne556).
  - right. left. reflexivity.
  - reflexivity.
Defined.

Section ValidationFacts.
Variable ilike : string -> string -> bool.

Lemma validate_item_done (table : list Part) (item : Item) :
  exists item',
    validate_item ilike table item = Done item' /\
    value item' = value item /\
    (related_parts_of ilike table item = [] -> item' = item).
Proof.
  unfold validate_item.
  destruct (related_parts_of ilike table item) as [| c cs] eqn:Hrel.
  - exists item. cbn. auto.
  - cbn [List.length Nat.ltb Nat.leb].
    destruct (match_loop_invariant levenshtein_distance (value item) (c :: cs))
      as (i & p & Hrun & _); [discriminate |].
    unfold match_parts, match_parts_with. rewrite Hrun. cbn [best_part].
    eexists. split; [reflexivity |]. split; [reflexivity | discriminate].
Qed.

(** X21.  The validation pass cannot fail on its matches: the guard of
    line 355 keeps the matcher away from an empty candidate list, so
    [best_match.id] always has a part to read.  The pass goes through all
    the items, changes no item's value, and leaves an item whose query
    found no candidate exactly as it was, an earlier link included. *)
Theorem validate_parts_goes_through
        (table : list Part) (queried_items : list Item) :
  exists items',
    validate_parts ilike table queried_items = (Done tt, items') /\
    Forall2 (fun item item' =>
               value item' = value item /\
               (related_parts_of ilike table item = [] -> item' = item))
            queried_items items'.
Proof.
  induction queried_items as [| item rest IH].
  - exists []. split; [reflexivity | constructor].
  - destruct IH as (rest' & Hrest & Hall).
    destruct (validate_item_done table item) as (item' & Hitem & Hv & Hkeep).
    exists (item' :: rest'). cbn [validate_parts].
    rewrite Hitem, Hrest. split; [reflexivity |].
    constructor; [split; assumption | exact Hall].
Qed.

(** X22.  An item whose query finds candidates is linked to one of them:
    the [part_id] written is the primary key of a row of the table, the
    row's [mpn] matches the pattern built from the item's value, and among
    the candidates it is the first at the least Levenshtein distance from
    the value. *)
Theorem validated_item_links_best_candidate
        (table : list Part) (item : Item) :
  related_parts_of ilike table item <> [] ->
  exists i p,
    validate_item ilike table item
      = Done (mkItem (value item) (Some (id p))) /\
    In p table /\
    ilike (mpn p) (String.append "%" (String.append (value item) "%")) = true /\
    first_minimum levenshtein_distance (value item)
                  (related_parts_of ilike table item) i p.
Proof.
  intros Hne. unfold validate_item.
  destruct (match_loop_invariant levenshtein_distance (value item)
              (related_parts_of ilike table item) Hne)
    as (i & p & Hrun & Hmin).
  exists i, p.
  assert (Hin : In p (related_parts_of ilike table item)).
  { destruct Hmin as (Hi & _). eapply nth_error_In; exact Hi. }
  unfold related_parts_of in Hin at 1. apply filter_In in Hin as (Hin & Hlike).
  split; [| split; [exact Hin | split; [exact Hlike | exact Hmin]]].
  destruct (related_parts_of ilike table item) as [| c cs] eqn:Hrel;
    [congruence |].
  cbn [List.length Nat.ltb Nat.leb].
  unfold match_parts, match_parts_with. now rewrite Hrun.
Qed.
End ValidationFacts.

Lemma validated_item_links_best_candidate_witness :
  exists i p,
    validate_item sample_ilike [atmega644; ne556; ne555] item_ne55
      = Done (mkItem (value item_ne55) (Some (id p))) /\
    In p [atmega644; ne556; ne555] /\
    sample_ilike (mpn p)
      (String.append "%" (String.append (value item_ne55) "%")) = true /\
    first_minimum levenshtein_distance (value item_ne55)
      (related_parts_of sample_ilike [atmega644; ne556; ne555] item_ne55) i p.
Proof.
  apply (validated_item_links_best_candidate sample_ilike
           [atmega644; ne556; ne555] item_ne55).
  vm_compute. discriminate.
Defined.

(** The sample items validated: the timer query is linked to the first of
    the two equally near parts, the unknown item keeps its stale link. *)
Example validate_parts_sample :
  validate_parts sample_ilike [atmega644; ne556; ne555]
                 [item_ne55; item_unknown]
  = (Done tt, [mkItem "NE55" (Some 4%nat); item_unknown]).
Proof. vm_compute. reflexivity. Qed.
